(** * The streaming core of the noaa consumer (consumer/async.go)

    A shallow embedding of [consumer/async.go]: the connection handle and
    its lock-protected methods, the connection registry and [Close], the
    websocket dialer wrapper, the decode-dispatch loop, the bounded retry
    loop and the CONNECT tunnel of [proxyDial].

    Conventions.
    - A Go [error] value is an [option error]; [None] is [nil].
    - A [*websocket.Conn] is an [option wsConn]; [None] is the nil pointer.
    - A [*connection] is an index into the heap of handles; the registry
      [c.conns] and the streaming goroutine hold the same index, so both
      see every update of the handle.
    - Go's [uint] is a [Z] in [0, 2^uintSize) and [++] wraps around.
    - Every call into a library (websocket, net, http, time) and every
      channel operation is recorded, in program order, in a trace.
    - What the outside world answers (the dialer, the frames read from the
      wire, a terminate issued by another goroutine while a read blocks)
      is a script held in the state and consumed call by call. *)

From Stdlib Require Import ZArith Ascii String List Lia Bool.
From stdpp Require Import base list strings.

Import ListNotations.
Set Warnings "-register-all".
Local Open Scope string_scope.
Local Open Scope list_scope.

(** ** Errors *)

(** The error values the file builds or passes through.
    [errors_New msg] is [errors.New(msg)]; [NewUnauthorizedError body] is
    [noaa_errors.NewUnauthorizedError(body)]; [LibraryError msg] is an
    error returned by the websocket, net or http library, known by the
    text its [Error()] method gives. *)
Inductive error : Type :=
  | errors_New (msg : string)
  | NewUnauthorizedError (body : string)
  | LibraryError (msg : string).

Definition is_nil {A : Type} (e : option A) : bool :=
  match e with None => true | Some _ => false end.

(** ** Websocket connections, as far as the file uses them *)

(** A live upgraded connection.  [ws_close_result] is what the transport
    answers to [Close()]. *)
Record wsConn : Type := mkWs {
  ws_id : nat;
  ws_close_result : option string
}.

(** Calls made on a [*websocket.Conn].  [SetReadDeadline w d] stands for
    [ws.SetReadDeadline(time.Now().Add(d))]: the instant of the call is its
    position in the trace, [d] the duration added to it. *)
Inductive ws_call : Type :=
  | WriteControlClose (w : nat)
  | WsClose (w : nat)
  | SetReadDeadline (w : nat) (d : Z)
  | ReadMessage (w : nat).

(** ** The connection handle *)

Record connection : Type := mkConnection {
  ws : option wsConn;
  closed : bool
}.

(** The four methods of [connection].  Each runs under the handle's own
    mutex from its first to its last statement, so each is one atomic
    step on the record. *)
Module Conn.

Definition websocket (c : connection) : option wsConn := ws c.

Definition setWebsocket (c : connection) (w : option wsConn) : connection :=
  {| ws := w; closed := closed c |}.

(** [close] returns the updated handle, the calls it made on the
    websocket, and its error result. *)
Definition close (c : connection) : connection * list ws_call * option error :=
  let c' := {| ws := ws c; closed := true |} in
  match ws c with
  | None => (c', [], Some (errors_New "connection does not exist"))
  | Some w =>
      (c', [WriteControlClose (ws_id w); WsClose (ws_id w)],
       option_map LibraryError (ws_close_result w))
  end.

Definition Closed (c : connection) : bool := closed c.

(** An operation applied to a handle by any of its users. *)
Inductive op : Type :=
  | OpSetWebsocket (w : option wsConn)
  | OpWebsocket
  | OpClose
  | OpClosed.

Definition apply (c : connection) (o : op) : connection :=
  match o with
  | OpSetWebsocket w => setWebsocket c w
  | OpWebsocket => c
  | OpClose => fst (fst (close c))
  | OpClosed => c
  end.

Definition run (c : connection) (ops : list op) : connection :=
  fold_left apply ops c.

End Conn.

(** ** What the outside world answers *)

(** An [http.Response], with the fields this file reads.  [Header] lists
    the header map in the order a [range] over it visits the keys; [Body]
    is what [ioutil.ReadAll(resp.Body)] returns. *)
Record Response : Type := mkResponse {
  Proto : string;
  Status : string;
  StatusCode : Z;
  Header : list (string * list string);
  Body : string
}.

Definition StatusUnauthorized : Z := 401.
Definition StatusOK : Z := 200.

(** The three results of [c.dialer.Dial(url, header)]. *)
Record dial_result : Type := mkDial {
  d_ws : option wsConn;
  d_resp : option Response;
  d_err : option string
}.

(** One blocking [ws.ReadMessage()]: whether another goroutine calls the
    session's [Close] while the read blocks, and what the read returns. *)
Record read_event : Type := mkRead {
  terminate : bool;
  r_data : list Byte.byte;
  r_err : option string
}.

(** The function stored in [c.callback]: one configured from outside
    (known by a tag), or the closure [retryAction] builds around the
    previous one. *)
Inductive connect_callback : Type :=
  | External (tag : nat)
  | ResetAttempts (old : option connect_callback).

(** Go's [uint] on a 64-bit platform. *)
Definition uintSize : Z := 64.
Definition maxUint : Z := 2 ^ uintSize - 1.
Definition uint_incr (n : Z) : Z := (n + 1) mod 2 ^ uintSize.

Definition newline : string := String "010" "".

(** [headersString]: one line per header, values joined by a comma. *)
Definition headersString (header : list (string * list string)) : string :=
  fold_left
    (fun result nv => result +:+ fst nv +:+ ": " +:+ String.concat ", " (snd nv) +:+ newline)
    header "".

(** ** The CONNECT tunnel of [proxyDial] *)

(** [strings.Index]: the first position at which [sep] occurs in [s]. *)
Fixpoint strings_Index (s sep : string) : option nat :=
  if String.prefix sep s then Some O
  else match s with
       | EmptyString => None
       | String _ s' => option_map S (strings_Index s' sep)
       end.

Definition string_take (m : nat) (s : string) : string := String.substring 0 m s.
Definition string_drop (m : nat) (s : string) : string :=
  String.substring m (String.length s - m) s.

(** The loop of [genSplit]: at most [n] further cuts. *)
Fixpoint split_loop (fuel n : nat) (s sep : string) : list string :=
  match fuel, n with
  | S fuel', S n' =>
      match strings_Index s sep with
      | Some m =>
          string_take m s :: split_loop fuel' n' (string_drop (m + String.length sep) s) sep
      | None => [s]
      end
  | _, _ => [s]
  end.

(** [explode], with every byte taken as one character. *)
Fixpoint explode (n : nat) (s : string) : list string :=
  match n, s with
  | O, _ => []
  | S O, _ => [s]
  | S n', String a s' => String a "" :: explode n' s'
  | S _, EmptyString => []
  end.

(** [strings.SplitN(s, sep, n)]. *)
Definition strings_SplitN (s sep : string) (n : Z) : list string :=
  if (n =? 0)%Z then []
  else if String.eqb sep "" then
    explode (if (n <? 0)%Z then String.length s
             else Nat.min (Z.to_nat n) (String.length s)) s
  else
    split_loop (S (String.length s))
               (if (n <? 0)%Z then S (String.length s) else Z.to_nat n - 1) s sep.

(** A [*url.URL], as far as [proxyDial] reads it. *)
Record URL : Type := mkURL { Host : string }.

(** The functions [proxyDial] calls: [url.Parse], the proxy resolver taken
    from the environment, [net.Dial] and [http.ReadResponse].  A net
    connection is known by a number. *)
Record net_env : Type := mkNet {
  url_Parse : string -> URL + error;
  ProxyFromEnvironment : URL -> option URL * option error;
  net_Dial : string -> string -> nat + error;
  http_ReadResponse : nat -> Response + error
}.

Inductive net_call : Type :=
  | NetDial (network addr : string)
  | WriteConnect (conn : nat) (host : string)
  | NetClose (conn : nat).

(** The result of [proxyDial]: the pair it returns, or a run-time panic. *)
Inductive dial_outcome : Type :=
  | Returns (conn : option nat) (err : option error)
  | Panics (why : string).

(** The resolver in use: [c.proxy] or, when that is nil,
    [http.ProxyFromEnvironment]. *)
Definition proxy_resolver (env : net_env) (proxy : option (URL -> option URL * option error))
  : URL -> option URL * option error :=
  match proxy with
  | Some f => f
  | None => ProxyFromEnvironment env
  end.

(** [proxyDial]: the calls made on the network, in order, and the
    result.  [proxy] is the field [c.proxy]. *)
Definition proxyDial (env : net_env) (proxy : option (URL -> option URL * option error))
           (network addr : string) : list net_call * dial_outcome :=
  match url_Parse env ("http://" +:+ addr) with
  | inr err => ([], Returns None (Some err))
  | inl targetUrl =>
      match proxy_resolver env proxy targetUrl with
      | (_, Some err) => ([], Returns None (Some err))
      | (None, None) =>
          ([NetDial network addr],
           match net_Dial env network addr with
           | inl conn => Returns (Some conn) None
           | inr err => Returns None (Some err)
           end)
      | (Some proxyUrl, None) =>
          match net_Dial env network (Host proxyUrl) with
          | inr err => ([NetDial network (Host proxyUrl)], Returns None (Some err))
          | inl proxyConn =>
              let sent := [NetDial network (Host proxyUrl);
                           WriteConnect proxyConn (Host targetUrl)] in
              match http_ReadResponse env proxyConn with
              | inr err => (sent ++ [NetClose proxyConn], Returns None (Some err))
              | inl connectResp =>
                  if negb (StatusCode connectResp =? StatusOK)%Z then
                    let f := strings_SplitN (Status connectResp) " " 2 in
                    (sent ++ [NetClose proxyConn],
                     match f !! 1%nat with
                     | Some text => Returns None (Some (errors_New text))
                     | None => Panics "index out of range"
                     end)
                  else (sent, Returns (Some proxyConn) None)
              end
          end
      end
  end.

(** The message of the error returned for a failed dial. *)
Definition dial_error_text (cause tc : string) : string :=
  "Error dialing traffic controller server: " +:+ cause +:+ "." +:+ newline +:+
  "Please ask your Cloud Foundry Operator to check the platform configuration (traffic controller is "
  +:+ tc +:+ ").".

Section Model.

Context {Envelope LogMessage : Type}.

(** The [events] and [proto] packages, which this file only calls. *)
Variable Unmarshal : list Byte.byte -> option Envelope.
Variable GetEventType : Envelope -> Z.
Variable GetLogMessage : Envelope -> option LogMessage.
Variable Envelope_LogMessage : Z.

(** Everything observable, in program order. *)
Inductive event : Type :=
  | DebugPrint (label text : string)
  | Dial (url : string) (header : list (string * list string))
  | Ws (call : ws_call)
  | ConnectCallback (tag : nat)
  | SendError (e : option error)
  | SendLogMessage (m : option LogMessage)
  | SendEnvelope (e : Envelope)
  | CloseOutputs
  | CloseErrors
  | Sleep
  | Terminated (result : option error).

(** The [Consumer] fields this file uses, the heap of handles, the
    local [reconnectAttempts] of the running [retryAction], the trace,
    and the scripts of the outside world. *)
Record state : Type := mkState {
  trafficControllerUrl : string;
  idleTimeout : Z;
  callback : option connect_callback;
  conns : list nat;
  heap : list connection;
  reconnectAttempts : Z;
  trace : list event;
  dials : list dial_result;
  reads : list read_event
}.

Definition set_idleTimeout (d : Z) (s : state) : state :=
  mkState (trafficControllerUrl s) d (callback s) (conns s) (heap s)
          (reconnectAttempts s) (trace s) (dials s) (reads s).
Definition set_callback (cb : option connect_callback) (s : state) : state :=
  mkState (trafficControllerUrl s) (idleTimeout s) cb (conns s) (heap s)
          (reconnectAttempts s) (trace s) (dials s) (reads s).
Definition set_conns (l : list nat) (s : state) : state :=
  mkState (trafficControllerUrl s) (idleTimeout s) (callback s) l (heap s)
          (reconnectAttempts s) (trace s) (dials s) (reads s).
Definition set_heap (h : list connection) (s : state) : state :=
  mkState (trafficControllerUrl s) (idleTimeout s) (callback s) (conns s) h
          (reconnectAttempts s) (trace s) (dials s) (reads s).
Definition set_reconnectAttempts (n : Z) (s : state) : state :=
  mkState (trafficControllerUrl s) (idleTimeout s) (callback s) (conns s) (heap s)
          n (trace s) (dials s) (reads s).
Definition set_trace (t : list event) (s : state) : state :=
  mkState (trafficControllerUrl s) (idleTimeout s) (callback s) (conns s) (heap s)
          (reconnectAttempts s) t (dials s) (reads s).
Definition set_dials (d : list dial_result) (s : state) : state :=
  mkState (trafficControllerUrl s) (idleTimeout s) (callback s) (conns s) (heap s)
          (reconnectAttempts s) (trace s) d (reads s).
Definition set_reads (r : list read_event) (s : state) : state :=
  mkState (trafficControllerUrl s) (idleTimeout s) (callback s) (conns s) (heap s)
          (reconnectAttempts s) (trace s) (dials s) r.

Definition emit (es : list event) (s : state) : state :=
  set_trace (trace s ++ es) s.

(** How a call ends: it returns, it panics, it waits for ever on the
    outside world (the script has no further answer), or the model ran
    out of fuel. *)
Inductive outcome (A : Type) : Type :=
  | Return (a : A) (s : state)
  | Panic (why : string) (s : state)
  | Blocked (s : state)
  | OutOfFuel.
Arguments Return {A} a s.
Arguments Panic {A} why s.
Arguments Blocked {A} s.
Arguments OutOfFuel {A}.

Definition M (A : Type) : Type := state -> outcome A.

Definition ret {A : Type} (a : A) : M A := fun s => Return a s.

Definition bind {A B : Type} (m : M A) (k : A -> M B) : M B :=
  fun s =>
    match m s with
    | Return a s' => k a s'
    | Panic why s' => Panic why s'
    | Blocked s' => Blocked s'
    | OutOfFuel => OutOfFuel
    end.

Definition get : M state := fun s => Return s s.
Definition modify (f : state -> state) : M unit := fun s => Return tt (f s).
Definition tell (es : list event) : M unit := modify (emit es).
Definition panic {A : Type} (why : string) : M A := fun s => Panic why s.

Notation "'let*' x ':=' m 'in' k" := (bind m (fun x => k))
  (at level 10, x pattern, m at level 100, k at level 200).
Notation "m '>>' k" := (bind m (fun _ => k))
  (at level 100, k at level 200, right associativity).

(** *** Handles on the heap *)

(** Dereferencing a [*connection]. *)
Definition with_conn {A : Type} (p : nat) (k : connection -> M A) : M A :=
  fun s =>
    match heap s !! p with
    | Some c => k c s
    | None => Panic "invalid memory address or nil pointer dereference" s
    end.

Definition conn_websocket (p : nat) : M (option wsConn) :=
  with_conn p (fun c => ret (Conn.websocket c)).

Definition conn_setWebsocket (p : nat) (w : option wsConn) : M unit :=
  with_conn p (fun c =>
    modify (fun s => set_heap (<[p := Conn.setWebsocket c w]> (heap s)) s)).

Definition conn_close (p : nat) : M (option error) :=
  with_conn p (fun c =>
    modify (fun s =>
      emit (map Ws (snd (fst (Conn.close c))))
           (set_heap (<[p := fst (fst (Conn.close c))]> (heap s)) s)) >>
    ret (snd (Conn.close c))).

Definition conn_Closed (p : nat) : M bool :=
  with_conn p (fun c => ret (Conn.Closed c)).

(** *** The session *)

Definition SetOnConnectCallback (cb : option connect_callback) : M unit :=
  modify (set_callback cb).

Definition onConnectCallback : M (option connect_callback) :=
  let* s := get in ret (callback s).

Definition SetIdleTimeout (d : Z) : M unit := modify (set_idleTimeout d).

Definition Closed : M bool := ret false.

(** The loop of [Close]: [cs] is [c.conns], which only this loop
    changes while it runs. *)
Fixpoint Close_loop (cs : list nat) : M (option error) :=
  match cs with
  | [] => ret None
  | p :: rest =>
      let* err := conn_close p in
      match err with
      | Some e => ret (Some e)
      | None => modify (set_conns rest) >> Close_loop rest
      end
  end.

Definition Close : M (option error) :=
  let* s := get in
  if (length (conns s) =? 0)%nat
  then ret (Some (errors_New "connection does not exist"))
  else Close_loop (conns s).

(** [newConn]: a fresh handle, appended to the registry. *)
Definition newConn (wsConn : option wsConn) : M nat :=
  let* s := get in
  let p := length (heap s) in
  modify (fun s => set_conns (conns s ++ [p])
                     (set_heap (heap s ++ [mkConnection wsConn false]) s)) >>
  ret p.

(** Calling the function stored in [c.callback]. *)
Fixpoint call (cb : connect_callback) : M unit :=
  match cb with
  | External tag => tell [ConnectCallback tag]
  | ResetAttempts old =>
      modify (set_reconnectAttempts 0) >>
      match old with
      | Some f => call f
      | None => ret tt
      end
  end.

(** *** Dialing *)

Definition dialer_Dial (url : string) (header : list (string * list string)) : M dial_result :=
  fun s =>
    let s1 := emit [Dial url header] s in
    match dials s1 with
    | d :: rest => Return d (set_dials rest s1)
    | [] => Blocked s1
    end.

(** The statements of [establishWebsocketConnection] that follow the
    test for an unauthorized response. *)
Definition after_dial (d : dial_result) : M (option wsConn * option error) :=
  let* s1 := get in
  match d_err d, callback s1 with
  | None, Some cb => call cb
  | _, _ => ret tt
  end >>
  let* s2 := get in
  match d_err d with
  | Some e => ret (None, Some (errors_New (dial_error_text e (trafficControllerUrl s2))))
  | None => ret (d_ws d, None)
  end.

Definition establishWebsocketConnection (path authToken : string)
  : M (option wsConn * option error) :=
  let header := [("Origin", ["http://localhost"]); ("Authorization", [authToken])] in
  let* s := get in
  let url := trafficControllerUrl s +:+ path in
  tell [DebugPrint "WEBSOCKET REQUEST:"
          ("GET " +:+ path +:+ " HTTP/1.1" +:+ newline +:+
           "Host: " +:+ trafficControllerUrl s +:+ newline +:+
           "Upgrade: websocket" +:+ newline +:+ "Connection: Upgrade" +:+ newline +:+
           "Sec-WebSocket-Version: 13" +:+ newline +:+
           "Sec-WebSocket-Key: [HIDDEN]" +:+ newline +:+
           headersString header)] >>
  let* d := dialer_Dial url header in
  match d_resp d with
  | Some resp =>
      tell [DebugPrint "WEBSOCKET RESPONSE:"
              (Proto resp +:+ " " +:+ Status resp +:+ newline +:+ headersString (Header resp))]
  | None => ret tt
  end >>
  match d_resp d with
  | Some resp =>
      if (StatusCode resp =? StatusUnauthorized)%Z
      then ret (d_ws d, Some (NewUnauthorizedError (Body resp)))
      else after_dial d
  | None => after_dial d
  end.

(** *** The decode-dispatch loop *)

(** A method call on a [*websocket.Conn]; on the nil pointer it panics. *)
Definition on_ws {A : Type} (w : option wsConn) (k : wsConn -> M A) : M A :=
  match w with
  | Some x => k x
  | None => panic "invalid memory address or nil pointer dereference"
  end.

Definition ws_SetReadDeadline (w : option wsConn) (d : Z) : M unit :=
  on_ws w (fun x => tell [Ws (SetReadDeadline (ws_id x) d)]).

(** [ws.ReadMessage()]: the call blocks; while it blocks another
    goroutine may run the session's [Close]; then the read returns what
    the script says. *)
Definition ws_ReadMessage (w : option wsConn) : M read_event :=
  on_ws w (fun x =>
    tell [Ws (ReadMessage (ws_id x))] >>
    let* s := get in
    match reads s with
    | [] => fun s => Blocked s
    | r :: rest =>
        modify (set_reads rest) >>
        (if terminate r
         then let* res := Close in tell [Terminated res]
         else ret tt) >>
        ret r
    end).

(** One pass of the loop of [listenForMessages]: [Some r] when the
    pass ends the function with result [r], [None] when the loop goes
    on to the next pass. *)
Definition listen_pass (conn : nat) (w : option wsConn)
           (callback : Envelope -> M unit) : M (option (option error)) :=
  let* s := get in
  (if (idleTimeout s =? 0)%Z then ret tt
   else ws_SetReadDeadline w (idleTimeout s)) >>
  let* r := ws_ReadMessage w in
  let* cl := conn_Closed conn in
  if cl then ret (Some None)
  else
    match r_err r with
    | Some e => ret (Some (Some (LibraryError e)))
    | None =>
        match Unmarshal (r_data r) with
        | None => ret None
        | Some envelope => callback envelope >> ret None
        end
    end.

Fixpoint listen_loop (fuel : nat) (conn : nat) (w : option wsConn)
         (callback : Envelope -> M unit) : M (option error) :=
  match fuel with
  | O => fun _ => OutOfFuel
  | S fuel' =>
      let* x := listen_pass conn w callback in
      match x with
      | Some result => ret result
      | None => listen_loop fuel' conn w callback
      end
  end.

Definition listenForMessages (fuel : nat) (conn : nat)
           (callback : Envelope -> M unit) : M (option error) :=
  let* w := conn_websocket conn in
  listen_loop fuel conn w callback.

(** *** The retry loop *)

Fixpoint retry_loop (fuel : nat) (action : M (option error * bool)) (retries : Z) : M unit :=
  match fuel with
  | O => fun _ => OutOfFuel
  | S fuel' =>
      let* s := get in
      if (reconnectAttempts s <=? retries)%Z then
        let* r := action in
        if snd r then ret tt
        else
          tell [SendError (fst r)] >>
          tell [Sleep] >>
          modify (fun s => set_reconnectAttempts (uint_incr (reconnectAttempts s)) s) >>
          retry_loop fuel' action retries
      else ret tt
  end.

(** [retryAction]; the deferred [SetOnConnectCallback] runs when the
    loop returns. *)
Definition retryAction (fuel : nat) (action : M (option error * bool)) (retries : Z) : M unit :=
  modify (set_reconnectAttempts 0) >>
  let* oldConnectCallback := onConnectCallback in
  modify (set_callback (Some (ResetAttempts oldConnectCallback))) >>
  retry_loop fuel action retries >>
  SetOnConnectCallback oldConnectCallback.

(** *** The streaming operations *)

(** The closure [action], written out with the same text in
    [streamAppData] and in [firehose]. *)
Definition action (fuel : nat) (conn : nat) (streamPath authToken : string)
           (callback : Envelope -> M unit) : M (option error * bool) :=
  let* cl := conn_Closed conn in
  if cl then ret (None, true)
  else
    let* r := establishWebsocketConnection streamPath authToken in
    match snd r with
    | Some err => ret (Some err, false)
    | None =>
        conn_setWebsocket conn (fst r) >>
        let* e := listenForMessages fuel conn callback in
        ret (e, false)
    end.

Definition streamAppData (fuel : nat) (appGuid authToken : string)
           (callback : Envelope -> M unit) (retries : Z) : M unit :=
  let streamPath := "/apps/" +:+ appGuid +:+ "/stream" in
  let* conn := newConn None in
  retryAction fuel (action fuel conn streamPath authToken callback) retries.

(** The goroutine started by [tailingLogs]; the deferred closes run in
    reverse order of their [defer] statements. *)
Definition tailingLogs (fuel : nat) (appGuid authToken : string) (retries : Z) : M unit :=
  let callback := fun env =>
    if (GetEventType env =? Envelope_LogMessage)%Z
    then tell [SendLogMessage (GetLogMessage env)]
    else ret tt in
  streamAppData fuel appGuid authToken callback retries >>
  tell [CloseOutputs] >>
  tell [CloseErrors].

Definition runStream (fuel : nat) (appGuid authToken : string) (retries : Z) : M unit :=
  let callback := fun env => tell [SendEnvelope env] in
  streamAppData fuel appGuid authToken callback retries >>
  tell [CloseOutputs] >>
  tell [CloseErrors].

Definition firehose (fuel : nat) (subID authToken : string) (retries : Z) : M unit :=
  let callback := fun env => tell [SendEnvelope env] in
  let streamPath := "/firehose/" +:+ subID in
  let* conn := newConn None in
  retryAction fuel (action fuel conn streamPath authToken callback) retries >>
  tell [CloseOutputs] >>
  tell [CloseErrors].

Definition stream (fuel : nat) (streamPath authToken : string)
           (callback : Envelope -> M unit) : M (option error) :=
  let* r := establishWebsocketConnection streamPath authToken in
  match snd r with
  | Some err => ret (Some err)
  | None =>
      let* conn := newConn (fst r) in
      listenForMessages fuel conn callback
  end.

(** Modelled from the spec: the constant [maxRetries] is declared in
    another file of the package; the default reconnect bound is 5. *)
Definition maxRetries : Z := 5.

Definition TailingLogs (fuel : nat) (appGuid authToken : string) : M unit :=
  tailingLogs fuel appGuid authToken maxRetries.
Definition TailingLogsWithoutReconnect (fuel : nat) (appGuid authToken : string) : M unit :=
  tailingLogs fuel appGuid authToken 0.
Definition Stream (fuel : nat) (appGuid authToken : string) : M unit :=
  runStream fuel appGuid authToken maxRetries.
Definition StreamWithoutReconnect (fuel : nat) (appGuid authToken : string) : M unit :=
  runStream fuel appGuid authToken 0.
Definition Firehose (fuel : nat) (subscriptionId authToken : string) : M unit :=
  firehose fuel subscriptionId authToken 5.
Definition FirehoseWithoutReconnect (fuel : nat) (subscriptionId authToken : string) : M unit :=
  firehose fuel subscriptionId authToken 0.

End Model.

Arguments Return {Envelope LogMessage A} a s.
Arguments Panic {Envelope LogMessage A} why s.
Arguments Blocked {Envelope LogMessage A} s.
Arguments OutOfFuel {Envelope LogMessage A}.

(** ** Concrete data for the examples *)

(** A toy schema: a frame decodes when it is not empty, to an envelope
    known by its first byte, which is also its event type. *)
Definition toy_Unmarshal (data : list Byte.byte) : option Z :=
  match data with
  | [] => None
  | b :: _ => Some (Z.of_N (Byte.to_N b))
  end.
Definition toy_GetEventType (e : Z) : Z := e.
Definition toy_GetLogMessage (e : Z) : option string := Some "log line".
Definition toy_LogMessage : Z := 5.

Definition toy_ws : wsConn := {| ws_id := 1; ws_close_result := None |}.
Definition toy_ws_failing : wsConn := {| ws_id := 2; ws_close_result := Some "broken pipe" |}.

Definition dial_ok (w : wsConn) : dial_result :=
  {| d_ws := Some w; d_resp := None; d_err := None |}.
Definition dial_refused : dial_result :=
  {| d_ws := None; d_resp := None; d_err := Some "connection refused" |}.
Definition dial_unauthorized : dial_result :=
  {| d_ws := None;
     d_resp := Some {| Proto := "HTTP/1.1"; Status := "401 Unauthorized"; StatusCode := 401;
                       Header := []; Body := "invalid token" |};
     d_err := Some "websocket: bad handshake" |}.

Definition read_frame (data : list Byte.byte) : read_event :=
  {| terminate := false; r_data := data; r_err := None |}.
Definition read_failure (msg : string) : read_event :=
  {| terminate := false; r_data := []; r_err := Some msg |}.
Definition read_terminated : read_event :=
  {| terminate := true; r_data := []; r_err := Some "use of closed network connection" |}.

(** A session just built, facing the given scripts. *)
Definition toy_state (ds : list dial_result) (rs : list read_event) : @state Z string :=
  {| trafficControllerUrl := "wss://doppler.example.com";
     idleTimeout := 0;
     callback := None;
     conns := [];
     heap := [];
     reconnectAttempts := 0;
     trace := [];
     dials := ds;
     reads := rs |}.

(** A session with one stream connected on [toy_ws]. *)
Definition toy_connected (idle : Z) (rs : list read_event) : @state Z string :=
  {| trafficControllerUrl := "wss://doppler.example.com";
     idleTimeout := idle;
     callback := None;
     conns := [0%nat];
     heap := [mkConnection (Some toy_ws) false];
     reconnectAttempts := 0;
     trace := [];
     dials := [];
     reads := rs |}.

(** A session with the given registry and heap of handles. *)
Definition toy_registry (cs : list nat) (h : list connection) : @state Z string :=
  {| trafficControllerUrl := "wss://doppler.example.com";
     idleTimeout := 0;
     callback := None;
     conns := cs;
     heap := h;
     reconnectAttempts := 0;
     trace := [];
     dials := [];
     reads := [] |}.

(** A proxy that answers the CONNECT request with the given status. *)
Definition toy_net (status : string) (code : Z) : net_env :=
  {| url_Parse := fun _ => inl {| Host := "doppler.example.com:443" |};
     ProxyFromEnvironment := fun _ => (Some {| Host := "proxy.example.com:3128" |}, None);
     net_Dial := fun _ _ => inl 7%nat;
     http_ReadResponse := fun _ =>
       inl {| Proto := "HTTP/1.1"; Status := status; StatusCode := code;
              Header := []; Body := "" |} |}.

(** ** Observations on a trace *)

Section Observations.

Context {Envelope LogMessage : Type}.
Implicit Types (t : list (@event Envelope LogMessage)).

(** The values sent on the error channel. *)
Definition sent_errors t : list (option error) :=
  omap (fun e => match e with SendError x => Some x | _ => None end) t.

(** The envelopes sent on the output channel. *)
Definition sent_envelopes t : list Envelope :=
  omap (fun e => match e with SendEnvelope x => Some x | _ => None end) t.

(** The dial attempts. *)
Definition dialed t : list string :=
  omap (fun e => match e with Dial url _ => Some url | _ => None end) t.

(** The calls made on websockets. *)
Definition ws_calls t : list ws_call :=
  omap (fun e => match e with Ws c => Some c | _ => None end) t.

(** The log messages sent on the output channel of [tailingLogs]. *)
Definition sent_logs t : list (option LogMessage) :=
  omap (fun e => match e with SendLogMessage x => Some x | _ => None end) t.

(** The tags of the external connect callbacks that ran. *)
Definition callbacks_run t : list nat :=
  omap (fun e => match e with ConnectCallback n => Some n | _ => None end) t.

(** The calls that arm a deadline or read a message. *)
Definition read_calls t : list ws_call :=
  omap (fun e => match e with
                 | Ws (SetReadDeadline w d) => Some (SetReadDeadline w d)
                 | Ws (ReadMessage w) => Some (ReadMessage w)
                 | _ => None
                 end) t.

(** The state in which a call ends, when the model could follow it. *)
Definition final_state {A : Type} (r : @outcome Envelope LogMessage A)
  : option (@state Envelope LogMessage) :=
  match r with
  | Return _ s => Some s
  | Panic _ s => Some s
  | Blocked s => Some s
  | OutOfFuel => None
  end.

(** What one run of [establishWebsocketConnection] writes to the trace
    before it calls any connect callback. *)
Definition dial_trace (tc path authToken : string) (d : dial_result)
  : list (@event Envelope LogMessage) :=
  let header := [("Origin", ["http://localhost"]); ("Authorization", [authToken])] in
  [DebugPrint "WEBSOCKET REQUEST:"
     ("GET " +:+ path +:+ " HTTP/1.1" +:+ newline +:+
      "Host: " +:+ tc +:+ newline +:+
      "Upgrade: websocket" +:+ newline +:+ "Connection: Upgrade" +:+ newline +:+
      "Sec-WebSocket-Version: 13" +:+ newline +:+
      "Sec-WebSocket-Key: [HIDDEN]" +:+ newline +:+
      headersString header);
   Dial (tc +:+ path) header] ++
  match d_resp d with
  | Some resp =>
      [DebugPrint "WEBSOCKET RESPONSE:"
         (Proto resp +:+ " " +:+ Status resp +:+ newline +:+ headersString (Header resp))]
  | None => []
  end.

(** [Close] called [n] times in a row; the result is that of the last
    call, nil when there is none. *)
Fixpoint Close_times (n : nat) : @M Envelope LogMessage (option error) :=
  match n with
  | O => ret None
  | S O => Close
  | S n' => bind Close (fun _ => Close_times n')
  end.

End Observations.

(** ** Observations on the heap and on the scripts *)

(** What [close] would return on the handle at [p]. *)
Definition close_result (h : list connection) (p : nat) : option (option error) :=
  match h !! p with
  | Some c => Some (snd (Conn.close c))
  | None => None
  end.

(** The websocket calls [close] would make on the handles [ps], in order. *)
Definition close_calls (h : list connection) (ps : list nat) : list ws_call :=
  flat_map (fun p => match h !! p with
                     | Some c => snd (fst (Conn.close c))
                     | None => []
                     end) ps.

Definition is_closed (h : list connection) (p : nat) : bool :=
  match h !! p with
  | Some c => closed c
  | None => false
  end.

(** The response is a 401. *)
Definition unauthorized (d : dial_result) : bool :=
  match d_resp d with
  | Some resp => (StatusCode resp =? StatusUnauthorized)%Z
  | None => false
  end.

(** A dial that does not give a connection: the response is a 401 or the
    dialer reports an error. *)
Definition dial_fails (d : dial_result) : bool :=
  unauthorized d || negb (is_nil (d_err d)).

(** The error [establishWebsocketConnection] returns for such a dial. *)
Definition dial_failure (tc : string) (d : dial_result) : option error :=
  match d_resp d with
  | Some resp =>
      if (StatusCode resp =? StatusUnauthorized)%Z
      then Some (NewUnauthorizedError (Body resp))
      else option_map (fun e => errors_New (dial_error_text e tc)) (d_err d)
  | None => option_map (fun e => errors_New (dial_error_text e tc)) (d_err d)
  end.

(** The tags of the external callbacks a call of [cb] runs. *)
Fixpoint callback_tags (cb : connect_callback) : list nat :=
  match cb with
  | External tag => [tag]
  | ResetAttempts old =>
      match old with
      | Some f => callback_tags f
      | None => []
      end
  end.

(** A dial that gives a connection. *)
Definition dial_succeeds (d : dial_result) : bool :=
  negb (unauthorized d) && is_nil (d_err d) && negb (is_nil (d_ws d)).

(** The websocket calls of one pass of the read loop: the deadline, when
    the idle timeout is not zero, then the read. *)
Definition deadline_calls (idle : Z) (w : nat) : list ws_call :=
  if (idle =? 0)%Z then [] else [SetReadDeadline w idle].

Definition pass_calls (idle : Z) (w : nat) : list ws_call :=
  deadline_calls idle w ++ [ReadMessage w].

(** The number of the websocket behind a pointer; 0 for the nil pointer,
    on which no call is ever recorded. *)
Definition ws_number (w : option wsConn) : nat :=
  match w with
  | Some x => ws_id x
  | None => 0
  end.

(** * Properties *)

(** ** The connection handle *)

Lemma apply_keeps_closed (c : connection) (o : Conn.op) :
  closed c = true -> closed (Conn.apply c o) = true.
Proof.
  destruct o; simpl; auto.
  unfold Conn.close. destruct (ws c); reflexivity.
Qed.

Lemma run_keeps_closed (ops : list Conn.op) :
  forall c, closed c = true -> closed (Conn.run c ops) = true.
Proof.
  unfold Conn.run.
  induction ops as [|o ops IH]; intros c Hc; simpl.
  - exact Hc.
  - apply IH. now apply apply_keeps_closed.
Qed.

(** C8. Once the closed flag of a handle is true, no further sequence of
    operations on the handle ([setWebsocket], [websocket], [close],
    [Closed]) makes it false again. *)
Theorem closed_is_monotonic (c : connection) (ops more : list Conn.op) :
  closed (Conn.run c ops) = true ->
  closed (Conn.run c (ops ++ more)) = true.
Proof.
  intros H. unfold Conn.run in *. rewrite fold_left_app.
  now apply (run_keeps_closed more).
Qed.

Lemma closed_is_monotonic_witness :
  closed (Conn.run (mkConnection None false)
            ([Conn.OpClose] ++ [Conn.OpSetWebsocket (Some toy_ws); Conn.OpClosed; Conn.OpClose]))
  = true.
Proof.
  apply (closed_is_monotonic (mkConnection None false) [Conn.OpClose]).
  reflexivity.
Defined.

(** ** The CONNECT tunnel *)

Lemma prefix_empty (s : string) : String.prefix "" s = true.
Proof. destruct s; reflexivity. Qed.

Lemma strings_Index_cons (a : ascii) (s : string) :
  strings_Index (String a s) " " =
  if ascii_dec " " a then Some O else option_map S (strings_Index s " ").
Proof.
  change (strings_Index (String a s) " ")
    with (if (if ascii_dec " " a then String.prefix "" s else false)
          then Some O else option_map S (strings_Index s " ")).
  rewrite prefix_empty. destruct (ascii_dec " " a); reflexivity.
Qed.

Lemma strings_Index_space (code rest : string) :
  strings_Index code " " = None ->
  strings_Index (code +:+ " " +:+ rest) " " = Some (String.length code).
Proof.
  induction code as [|a code IH]; intros H.
  - change ("" +:+ " " +:+ rest) with (String " " rest).
    rewrite strings_Index_cons. reflexivity.
  - change (String a code +:+ " " +:+ rest) with (String a (code +:+ " " +:+ rest)).
    rewrite strings_Index_cons in *.
    destruct (ascii_dec " " a) as [E|E]; [discriminate H|].
    destruct (strings_Index code " ") eqn:Hi; [discriminate H|].
    rewrite (IH eq_refl). reflexivity.
Qed.

Lemma append_cons (x : ascii) (a b : string) : String x a +:+ b = String x (a +:+ b).
Proof. reflexivity. Qed.

Lemma append_empty (b : string) : "" +:+ b = b.
Proof. reflexivity. Qed.

Lemma string_take_app (a b : string) :
  string_take (String.length a) (a +:+ b) = a.
Proof.
  unfold string_take.
  induction a as [|x a IH].
  - rewrite append_empty. destruct b; reflexivity.
  - rewrite append_cons. simpl. now rewrite IH.
Qed.

Lemma substring_all (s : string) : String.substring 0 (String.length s) s = s.
Proof. induction s as [|x s IH]; simpl; [reflexivity|now rewrite IH]. Qed.

Lemma string_drop_app (a b : string) :
  string_drop (String.length a) (a +:+ b) = b.
Proof.
  unfold string_drop.
  induction a as [|x a IH].
  - rewrite append_empty. simpl String.length. rewrite Nat.sub_0_r. apply substring_all.
  - rewrite append_cons. simpl. exact IH.
Qed.

Lemma length_append (a b : string) :
  String.length (a +:+ b) = (String.length a + String.length b)%nat.
Proof.
  induction a as [|x a IH]; [reflexivity|].
  rewrite append_cons. simpl. now rewrite IH.
Qed.

Lemma append_assoc (a b c : string) : (a +:+ b) +:+ c = a +:+ (b +:+ c).
Proof.
  induction a as [|x a IH]; [reflexivity|].
  rewrite !append_cons. now rewrite IH.
Qed.

(** Cutting a status line at its first space. *)
Lemma SplitN_status (code text : string) :
  strings_Index code " " = None ->
  strings_SplitN (code +:+ " " +:+ text) " " 2 = [code; text].
Proof.
  intros H. unfold strings_SplitN. simpl Z.eqb. simpl String.eqb. cbv iota.
  change (Z.to_nat 2 - 1)%nat with 1%nat. simpl Z.ltb. cbv iota.
  unfold split_loop. rewrite (strings_Index_space code text H).
  rewrite string_take_app.
  replace (String.length code + String.length " ")%nat
    with (String.length (code +:+ " ")) by (rewrite length_append; reflexivity).
  rewrite <- (append_assoc code " " text), string_drop_app.
  destruct (String.length ((code +:+ " ") +:+ text)); reflexivity.
Qed.

(** C7, as the code has it. When the proxy answers the CONNECT request,
    the status code 200 and no other makes [proxyDial] hand back the
    tunnelled connection, left open; with any other code, and a status
    made of a code, a space and a text, [proxyDial] closes the proxy
    connection and returns an error carrying that text. *)
Theorem proxyDial_connect_response
    (env : net_env) (proxy : option (URL -> option URL * option error))
    (network addr : string) (targetUrl proxyUrl : URL) (proxyConn : nat)
    (connectResp : Response) :
  url_Parse env ("http://" +:+ addr) = inl targetUrl ->
  proxy_resolver env proxy targetUrl = (Some proxyUrl, None) ->
  net_Dial env network (Host proxyUrl) = inl proxyConn ->
  http_ReadResponse env proxyConn = inl connectResp ->
  (StatusCode connectResp = 200%Z ->
     proxyDial env proxy network addr =
       ([NetDial network (Host proxyUrl); WriteConnect proxyConn (Host targetUrl)],
        Returns (Some proxyConn) None))
  /\
  (forall code text : string,
     StatusCode connectResp <> 200%Z ->
     Status connectResp = code +:+ " " +:+ text ->
     strings_Index code " " = None ->
     proxyDial env proxy network addr =
       ([NetDial network (Host proxyUrl); WriteConnect proxyConn (Host targetUrl);
         NetClose proxyConn],
        Returns None (Some (errors_New text)))).
Proof.
  intros Hu Hp Hd Hr. unfold proxyDial. rewrite Hu, Hp, Hd, Hr. split.
  - intros Hc. rewrite Hc. reflexivity.
  - intros code text Hc Hs Hi.
    destruct (Z.eqb_spec (StatusCode connectResp) StatusOK) as [E|E].
    + contradiction.
    + simpl negb. cbv iota. rewrite Hs, (SplitN_status code text Hi). reflexivity.
Qed.

Lemma proxyDial_connect_response_witness :
  proxyDial (toy_net "200 Connection established" 200) None "tcp" "doppler.example.com:443"
  = ([NetDial "tcp" "proxy.example.com:3128"; WriteConnect 7 "doppler.example.com:443"],
     Returns (Some 7%nat) None)
  /\
  proxyDial (toy_net "407 Proxy Authentication Required" 407) None "tcp" "doppler.example.com:443"
  = ([NetDial "tcp" "proxy.example.com:3128"; WriteConnect 7 "doppler.example.com:443";
      NetClose 7],
     Returns None (Some (errors_New "Proxy Authentication Required"))).
Proof.
  split.
  - apply (proxyDial_connect_response
             (toy_net "200 Connection established" 200) None "tcp" "doppler.example.com:443"
             {| Host := "doppler.example.com:443" |} {| Host := "proxy.example.com:3128" |} 7
             {| Proto := "HTTP/1.1"; Status := "200 Connection established"; StatusCode := 200;
                Header := []; Body := "" |});
      reflexivity.
  - apply (proxyDial_connect_response
             (toy_net "407 Proxy Authentication Required" 407) None "tcp"
             "doppler.example.com:443"
             {| Host := "doppler.example.com:443" |} {| Host := "proxy.example.com:3128" |} 7
             {| Proto := "HTTP/1.1"; Status := "407 Proxy Authentication Required";
                StatusCode := 407; Header := []; Body := "" |}
             eq_refl eq_refl eq_refl eq_refl) with (code := "407");
      [discriminate | reflexivity | reflexivity].
Defined.

(** C7, as stated, fails: the status 204 is in the 200 class, yet the
    tunnel is refused and the proxy connection closed. *)
Lemma proxyDial_refuses_204 :
  (200 <= 204 < 300)%Z /\
  proxyDial (toy_net "204 No Content" 204) None "tcp" "doppler.example.com:443"
  = ([NetDial "tcp" "proxy.example.com:3128"; WriteConnect 7 "doppler.example.com:443";
      NetClose 7],
     Returns None (Some (errors_New "No Content"))).
Proof. split; [lia | reflexivity]. Qed.

(** A status that is a bare code, without a space: the proxy connection
    is closed and the indexing [f[1]] panics. *)
Lemma proxyDial_bare_status_panics :
  proxyDial (toy_net "407" 407) None "tcp" "doppler.example.com:443"
  = ([NetDial "tcp" "proxy.example.com:3128"; WriteConnect 7 "doppler.example.com:443";
      NetClose 7],
     Panics "index out of range").
Proof. reflexivity. Qed.

(** ** The registry and [Close] *)

Section Registry.

Context {Envelope LogMessage : Type}.
Implicit Types (s : @state Envelope LogMessage).

Lemma conn_close_run s (p : nat) (c : connection) :
  heap s !! p = Some c ->
  conn_close p s =
    Return (snd (Conn.close c))
      (emit (map Ws (snd (fst (Conn.close c))))
            (set_heap (<[p := fst (fst (Conn.close c))]> (heap s)) s)).
Proof.
  intros H. unfold conn_close, with_conn. rewrite H. reflexivity.
Qed.

Lemma conn_close_invalid s (p : nat) :
  heap s !! p = None ->
  conn_close p s = Panic "invalid memory address or nil pointer dereference" s.
Proof.
  intros H. unfold conn_close, with_conn. rewrite H. reflexivity.
Qed.

(** [close] keeps the websocket of the handle. *)
Lemma close_keeps_ws (c : connection) : ws (fst (fst (Conn.close c))) = ws c.
Proof. unfold Conn.close. destruct (ws c); reflexivity. Qed.

Lemma close_sets_closed (c : connection) : closed (fst (fst (Conn.close c))) = true.
Proof. unfold Conn.close. destruct (ws c); reflexivity. Qed.

Lemma close_again (c : connection) :
  snd (Conn.close (fst (fst (Conn.close c)))) = snd (Conn.close c)
  /\ snd (fst (Conn.close (fst (fst (Conn.close c))))) = snd (fst (Conn.close c)).
Proof. unfold Conn.close. destruct (ws c); simpl; auto. Qed.

Lemma lookup_after_close (h : list connection) (p q : nat) (c : connection) :
  h !! p = Some c ->
  <[p := fst (fst (Conn.close c))]> h !! q =
    if decide (p = q) then Some (fst (fst (Conn.close c))) else h !! q.
Proof.
  intros H. destruct (decide (p = q)) as [->|Hne].
  - apply list_lookup_insert_eq. now apply lookup_lt_Some with c.
  - now apply list_lookup_insert_ne.
Qed.

Lemma close_result_after_close (h : list connection) (p q : nat) (c : connection) :
  h !! p = Some c ->
  close_result (<[p := fst (fst (Conn.close c))]> h) q = close_result h q.
Proof.
  intros H. unfold close_result. rewrite (lookup_after_close h p q c H).
  destruct (decide (p = q)) as [->|Hne]; [|reflexivity].
  rewrite H. f_equal. apply close_again.
Qed.

Lemma close_calls_after_close (h : list connection) (p : nat) (c : connection) (ps : list nat) :
  h !! p = Some c ->
  close_calls (<[p := fst (fst (Conn.close c))]> h) ps = close_calls h ps.
Proof.
  intros H. unfold close_calls.
  induction ps as [|q ps IH]; simpl; [reflexivity|].
  rewrite IH. f_equal. rewrite (lookup_after_close h p q c H).
  destruct (decide (p = q)) as [->|Hne]; [|reflexivity].
  rewrite H. apply close_again.
Qed.

Lemma close_calls_app (h : list connection) (a b : list nat) :
  close_calls h (a ++ b) = close_calls h a ++ close_calls h b.
Proof. unfold close_calls. apply flat_map_app. Qed.

Lemma is_closed_after_close (h : list connection) (p q : nat) (c : connection) :
  h !! p = Some c ->
  is_closed (<[p := fst (fst (Conn.close c))]> h) q =
    if decide (p = q) then true else is_closed h q.
Proof.
  intros H. unfold is_closed. rewrite (lookup_after_close h p q c H).
  destruct (decide (p = q)); [apply close_sets_closed|reflexivity].
Qed.

Lemma ws_calls_app (t u : list (@event Envelope LogMessage)) :
  ws_calls (t ++ u) = ws_calls t ++ ws_calls u.
Proof. unfold ws_calls. apply omap_app. Qed.

Lemma ws_calls_Ws (l : list ws_call) :
  ws_calls (map (@Ws Envelope LogMessage) l) = l.
Proof. induction l as [|x l IH]; simpl; [reflexivity|]. unfold ws_calls in *. simpl. now rewrite IH. Qed.

Lemma Close_unfold s :
  Close s =
    if (length (conns s) =? 0)%nat
    then Return (Some (errors_New "connection does not exist")) s
    else Close_loop (conns s) s.
Proof. unfold Close, bind, get. destruct (length (conns s) =? 0)%nat; reflexivity. Qed.

Lemma Close_loop_cons s (p : nat) (rest : list nat) (c : connection) :
  heap s !! p = Some c ->
  Close_loop (p :: rest) s =
    match snd (Conn.close c) with
    | Some e =>
        Return (Some e)
          (emit (map Ws (snd (fst (Conn.close c))))
             (set_heap (<[p := fst (fst (Conn.close c))]> (heap s)) s))
    | None =>
        Close_loop rest
          (set_conns rest
             (emit (map Ws (snd (fst (Conn.close c))))
                (set_heap (<[p := fst (fst (Conn.close c))]> (heap s)) s)))
    end.
Proof.
  intros H. simpl. unfold bind at 1. rewrite (conn_close_run s p c H).
  destruct (snd (Conn.close c)); reflexivity.
Qed.

(** The loop of [Close] over handles that all close without error:
    it gets past them, leaving each closed. *)
Lemma Close_loop_passes (pre : list nat) :
  forall s (post : list nat),
    conns s = pre ++ post ->
    Forall (fun p => close_result (heap s) p = Some None) pre ->
    exists s1,
      Close_loop (pre ++ post) s = Close_loop post s1
      /\ conns s1 = post
      /\ (forall q, close_result (heap s1) q = close_result (heap s) q)
      /\ (forall q, is_closed (heap s) q = true -> is_closed (heap s1) q = true)
      /\ (forall qs, close_calls (heap s1) qs = close_calls (heap s) qs)
      /\ Forall (fun p => is_closed (heap s1) p = true) pre
      /\ ws_calls (trace s1) = ws_calls (trace s) ++ close_calls (heap s) pre.
Proof.
  induction pre as [|p pre IH]; intros s post Hc Hok.
  - exists s. simpl in *. repeat split; auto.
    unfold close_calls. simpl. now rewrite app_nil_r.
  - inversion Hok as [|? ? Hp Hpre]; subst.
    unfold close_result in Hp. destruct (heap s !! p) as [c|] eqn:Hl; [|discriminate].
    injection Hp as Hp.
    set (s0 := set_conns (pre ++ post)
                 (emit (map Ws (snd (fst (Conn.close c))))
                    (set_heap (<[p := fst (fst (Conn.close c))]> (heap s)) s))).
    destruct (IH s0 post) as (s1 & Hrun & Hconns & Hres & Hmono & Hcalls & Hall & Htr).
    + reflexivity.
    + simpl. eapply Forall_impl; [exact Hpre|].
      intros q Hq. simpl in Hq. now rewrite (close_result_after_close _ _ _ _ Hl).
    + exists s1. split; [|split; [|split; [|split; [|split; [|split]]]]].
      * rewrite <- Hrun. change ((p :: pre) ++ post) with (p :: (pre ++ post)).
        rewrite (Close_loop_cons s p (pre ++ post) c Hl), Hp. reflexivity.
      * exact Hconns.
      * intros q. rewrite Hres. simpl. apply (close_result_after_close _ _ _ _ Hl).
      * intros q Hq. apply Hmono. simpl. rewrite (is_closed_after_close _ _ _ _ Hl).
        destruct (decide (p = q)); auto.
      * intros qs. rewrite Hcalls. simpl. apply (close_calls_after_close _ _ _ _ Hl).
      * constructor; [|exact Hall].
        apply Hmono. simpl. rewrite (is_closed_after_close _ _ _ _ Hl).
        destruct (decide (p = p)); congruence.
      * rewrite Htr. simpl. rewrite ws_calls_app, ws_calls_Ws.
        rewrite (close_calls_after_close _ _ _ _ Hl). rewrite Hl.
        now rewrite app_assoc.
Qed.

(** [Close], in terms of what [close] returns and calls on each handle. *)
Lemma Close_by_close_results s :
  (conns s = [] ->
     Close s = Return (Some (errors_New "connection does not exist")) s)
  /\
  (forall ps : list nat,
     ps <> [] -> conns s = ps ->
     Forall (fun p => close_result (heap s) p = Some None) ps ->
     exists s',
       Close s = Return None s'
       /\ conns s' = []
       /\ Forall (fun p => is_closed (heap s') p = true) ps
       /\ ws_calls (trace s') = ws_calls (trace s) ++ close_calls (heap s) ps)
  /\
  (forall (pre : list nat) (p : nat) (post : list nat) (e : error),
     conns s = pre ++ p :: post ->
     Forall (fun q => close_result (heap s) q = Some None) pre ->
     close_result (heap s) p = Some (Some e) ->
     exists s',
       Close s = Return (Some e) s'
       /\ conns s' = p :: post
       /\ Forall (fun q => is_closed (heap s') q = true) (pre ++ [p])
       /\ ws_calls (trace s') = ws_calls (trace s) ++ close_calls (heap s) (pre ++ [p])).
Proof.
  split; [|split].
  - intros H. rewrite Close_unfold, H. reflexivity.
  - intros ps Hne Hc Hok.
    destruct (Close_loop_passes ps s [] ltac:(now rewrite app_nil_r) Hok)
      as (s1 & Hrun & Hconns & _ & _ & _ & Hall & Htr).
    exists s1. rewrite app_nil_r in Hrun. split; [|auto].
    rewrite Close_unfold, Hc.
    destruct ps as [|p ps]; [contradiction|].
    change (Close_loop (p :: ps) s = Return None s1). rewrite Hrun. reflexivity.
  - intros pre p post e Hc Hok Hp.
    destruct (Close_loop_passes pre s (p :: post) Hc Hok)
      as (s1 & Hrun & Hconns & Hres & Hmono & Hcalls & Hall & Htr).
    rewrite <- Hres in Hp. unfold close_result in Hp.
    destruct (heap s1 !! p) as [c|] eqn:Hl; [|discriminate]. injection Hp as Hp.
    exists (emit (map Ws (snd (fst (Conn.close c))))
              (set_heap (<[p := fst (fst (Conn.close c))]> (heap s1)) s1)).
    split; [|split; [|split]].
    + rewrite Close_unfold, Hc.
      replace (length (pre ++ p :: post) =? 0)%nat with false
        by (symmetry; apply Nat.eqb_neq; rewrite length_app; simpl; lia).
      rewrite Hrun, (Close_loop_cons s1 p post c Hl), Hp. reflexivity.
    + simpl. exact Hconns.
    + simpl. apply Forall_app. split.
      * eapply Forall_impl; [exact Hall|]. intros q Hq. simpl in Hq.
        rewrite (is_closed_after_close _ _ _ _ Hl). destruct (decide (p = q)); auto.
      * constructor; [|constructor].
        rewrite (is_closed_after_close _ _ _ _ Hl). destruct (decide (p = p)); congruence.
    + simpl. rewrite ws_calls_app, ws_calls_Ws, Htr.
      rewrite close_calls_app, app_assoc. f_equal.
      rewrite <- (Hcalls [p]). unfold close_calls. simpl.
      now rewrite Hl, app_nil_r.
Qed.

(** Handles that hold a websocket whose close succeeds: [close] returns
    nil on each, and calls on each websocket the close frame write and
    then the close. *)
Lemma connected_handles_close (h : list connection) (ps : list nat) (wss : list wsConn) :
  Forall2 (fun p w => (exists c, h !! p = Some c /\ ws c = Some w)
                      /\ ws_close_result w = None) ps wss ->
  Forall (fun p => close_result h p = Some None) ps
  /\ close_calls h ps =
       flat_map (fun w => [WriteControlClose (ws_id w); WsClose (ws_id w)]) wss.
Proof.
  induction 1 as [|p w ps wss [[c [Hl Hw]] Hr] _ [IH1 IH2]].
  - split; [constructor|reflexivity].
  - split.
    + constructor; [|exact IH1].
      unfold close_result, Conn.close. rewrite Hl, Hw, Hr. reflexivity.
    + unfold close_calls in *. cbn [flat_map]. rewrite IH2.
      unfold Conn.close. rewrite Hl, Hw. reflexivity.
Qed.

(** C6. [Close] on an empty registry returns the error "connection does
    not exist" at once and changes nothing. On a registry whose handles
    all hold a websocket that closes without error, it marks every handle
    closed, writes the close frame and closes the websocket of each, in
    registry order, empties the registry and returns nil. When the handle
    [p] is the first whose [close] fails, because it holds no websocket or
    because closing its websocket fails, [Close] returns that failure; the
    websockets of the handles before [p], and that of [p] when it has one,
    got the close frame and the close; the handles before [p], and [p]
    itself, are marked closed, and the registry keeps [p] and the handles
    after it. *)
Theorem Close_closes_every_handle s :
  (conns s = [] ->
     Close s = Return (Some (errors_New "connection does not exist")) s)
  /\
  (forall (ps : list nat) (wss : list wsConn),
     ps <> [] -> conns s = ps ->
     Forall2 (fun p w => (exists c, heap s !! p = Some c /\ ws c = Some w)
                         /\ ws_close_result w = None) ps wss ->
     exists s',
       Close s = Return None s'
       /\ conns s' = []
       /\ Forall (fun p => is_closed (heap s') p = true) ps
       /\ ws_calls (trace s') =
            ws_calls (trace s) ++
            flat_map (fun w => [WriteControlClose (ws_id w); WsClose (ws_id w)]) wss)
  /\
  (forall (pre : list nat) (wss : list wsConn) (p : nat) (post : list nat) (c : connection),
     conns s = pre ++ p :: post ->
     Forall2 (fun q w => (exists c, heap s !! q = Some c /\ ws c = Some w)
                         /\ ws_close_result w = None) pre wss ->
     heap s !! p = Some c ->
     (ws c = None ->
      exists s',
        Close s = Return (Some (errors_New "connection does not exist")) s'
        /\ conns s' = p :: post
        /\ Forall (fun q => is_closed (heap s') q = true) (pre ++ [p])
        /\ ws_calls (trace s') =
             ws_calls (trace s) ++
             flat_map (fun w => [WriteControlClose (ws_id w); WsClose (ws_id w)]) wss)
     /\
     (forall (w : wsConn) (msg : string),
        ws c = Some w ->
        ws_close_result w = Some msg ->
        exists s',
          Close s = Return (Some (LibraryError msg)) s'
          /\ conns s' = p :: post
          /\ Forall (fun q => is_closed (heap s') q = true) (pre ++ [p])
          /\ ws_calls (trace s') =
               ws_calls (trace s) ++
               flat_map (fun w => [WriteControlClose (ws_id w); WsClose (ws_id w)])
                        (wss ++ [w]))).
Proof.
  destruct (Close_by_close_results s) as (Hempty & Hall & Hfirst).
  split; [exact Hempty|split].
  - intros ps wss Hne Hc Hws.
    destruct (connected_handles_close (heap s) ps wss Hws) as [Hok Hcalls].
    destruct (Hall ps Hne Hc Hok) as (s' & Hrun & Hc' & Hcl & Ht).
    exists s'. rewrite <- Hcalls. auto.
  - intros pre wss p post c Hc Hws Hl.
    destruct (connected_handles_close (heap s) pre wss Hws) as [Hok Hcalls].
    split.
    + intros Hw.
      destruct (Hfirst pre p post (errors_New "connection does not exist") Hc Hok)
        as (s' & Hrun & Hc' & Hcl & Ht).
      { unfold close_result, Conn.close. rewrite Hl, Hw. reflexivity. }
      exists s'. split; [exact Hrun|]. split; [exact Hc'|]. split; [exact Hcl|].
      rewrite Ht, close_calls_app, Hcalls. f_equal.
      unfold close_calls, Conn.close. cbn [flat_map]. rewrite Hl, Hw.
      cbn [fst snd]. now rewrite !app_nil_r.
    + intros w msg Hw Hr.
      destruct (Hfirst pre p post (LibraryError msg) Hc Hok)
        as (s' & Hrun & Hc' & Hcl & Ht).
      { unfold close_result, Conn.close. rewrite Hl, Hw, Hr. reflexivity. }
      exists s'. split; [exact Hrun|]. split; [exact Hc'|]. split; [exact Hcl|].
      rewrite Ht, close_calls_app, Hcalls, flat_map_app. f_equal.
      unfold close_calls, Conn.close. cbn [flat_map]. rewrite Hl, Hw.
      reflexivity.
Qed.

(** C10. A handle in which no websocket was installed: [close] marks
    it closed and returns "connection does not exist"; [Close], reaching
    such a handle first, returns that error and leaves the handle, now
    closed, in the registry. *)
Theorem Close_before_websocket s (p : nat) (rest : list nat) (c : connection) :
  conns s = p :: rest ->
  heap s !! p = Some c ->
  ws c = None ->
  Conn.close c =
    ({| ws := None; closed := true |}, [], Some (errors_New "connection does not exist"))
  /\
  exists s',
    Close s = Return (Some (errors_New "connection does not exist")) s'
    /\ conns s' = p :: rest
    /\ heap s' !! p = Some {| ws := None; closed := true |}
    /\ trace s' = trace s.
Proof.
  intros Hc Hl Hw.
  assert (Hclose : Conn.close c =
    ({| ws := None; closed := true |}, [], Some (errors_New "connection does not exist"))).
  { unfold Conn.close. rewrite Hw. reflexivity. }
  split; [exact Hclose|].
  exists (emit (map Ws (snd (fst (Conn.close c))))
            (set_heap (<[p := fst (fst (Conn.close c))]> (heap s)) s)).
  split; [|split; [|split]].
  - rewrite Close_unfold, Hc. simpl length. simpl Nat.eqb. cbv iota.
    rewrite (Close_loop_cons s p rest c Hl), Hclose. reflexivity.
  - simpl. exact Hc.
  - simpl. rewrite Hclose. simpl. apply list_lookup_insert_eq.
    now apply lookup_lt_Some with c.
  - simpl. rewrite Hclose. simpl. apply app_nil_r.
Qed.

(** The handle a stream request registers has no websocket yet. *)
Lemma newConn_registers s :
  newConn None s =
    Return (length (heap s))
      (set_conns (conns s ++ [length (heap s)])
         (set_heap (heap s ++ [mkConnection None false]) s)).
Proof. reflexivity. Qed.

End Registry.

(** ** The decode-dispatch loop *)

Section Listening.

Context {Envelope LogMessage : Type}.
Variable Unmarshal : list Byte.byte -> option Envelope.
Implicit Types (s : @state Envelope LogMessage).

Lemma emit_emit s (a b : list event) : emit b (emit a s) = emit (a ++ b) s.
Proof. destruct s. unfold emit, set_trace. simpl. now rewrite app_assoc. Qed.

Lemma emit_nil s : emit [] s = s.
Proof. destruct s. unfold emit, set_trace. simpl. now rewrite app_nil_r. Qed.

Lemma set_reads_emit s (rs : list read_event) (a : list event) :
  emit a (set_reads rs s) = set_reads rs (emit a s).
Proof. reflexivity. Qed.

(** One pass over a frame that is read without error, while the handle
    is open and nobody terminates. *)
Lemma listen_pass_frame s (conn : nat) (c : connection) (w : wsConn)
      (out : Envelope -> list event) (data : list Byte.byte) (rs : list read_event) :
  heap s !! conn = Some c ->
  closed c = false ->
  reads s = read_frame data :: rs ->
  listen_pass Unmarshal conn (Some w) (fun e => tell (out e)) s =
    Return None
      (set_reads rs
         (emit (map Ws (pass_calls (idleTimeout s) (ws_id w)) ++
                match Unmarshal data with Some e => out e | None => [] end) s)).
Proof.
  intros Hl Hc Hr. unfold listen_pass, pass_calls, deadline_calls.
  destruct s as [tc idle cb cs h n t ds rds]. simpl in *. subst rds.
  unfold bind, get, ws_SetReadDeadline, ws_ReadMessage, on_ws, tell, modify, ret,
    conn_Closed, with_conn.
  simpl. destruct (idle =? 0)%Z; simpl; rewrite Hl; unfold Conn.Closed; rewrite Hc;
    destruct (Unmarshal data); simpl; unfold emit, set_trace, set_reads; simpl;
    rewrite <- ?app_assoc; simpl; rewrite ?app_nil_r; reflexivity.
Qed.

Lemma listen_pass_failure s (conn : nat) (c : connection) (w : wsConn)
      (cb : Envelope -> M unit) (msg : string) (rs : list read_event) :
  heap s !! conn = Some c ->
  closed c = false ->
  reads s = read_failure msg :: rs ->
  listen_pass Unmarshal conn (Some w) cb s =
    Return (Some (Some (LibraryError msg)))
      (set_reads rs (emit (map Ws (pass_calls (idleTimeout s) (ws_id w))) s)).
Proof.
  intros Hl Hc Hr. unfold listen_pass, pass_calls, deadline_calls.
  destruct s as [tc idle cb0 cs h n t ds rds]. simpl in *. subst rds.
  unfold bind, get, ws_SetReadDeadline, ws_ReadMessage, on_ws, tell, modify, ret,
    conn_Closed, with_conn.
  simpl. destruct (idle =? 0)%Z; simpl; rewrite Hl; unfold Conn.Closed; rewrite Hc;
    simpl; unfold emit, set_trace, set_reads; simpl;
    rewrite <- ?app_assoc; reflexivity.
Qed.

Lemma listen_loop_step (fuel : nat) (conn : nat) (w : option wsConn)
      (cb : Envelope -> M unit) s :
  listen_loop Unmarshal (S fuel) conn w cb s =
    match listen_pass Unmarshal conn w cb s with
    | Return (Some result) s' => Return result s'
    | Return None s' => listen_loop Unmarshal fuel conn w cb s'
    | Panic why s' => Panic why s'
    | Blocked s' => Blocked s'
    | OutOfFuel => OutOfFuel
    end.
Proof.
  simpl. unfold bind.
  destruct (listen_pass Unmarshal conn w cb s) as [[r|] s'| | |]; reflexivity.
Qed.

Lemma listen_loop_frames (conn : nat) (c : connection) (w : wsConn)
      (out : Envelope -> list event) (msg : string) (rest : list read_event)
      (frames : list (list Byte.byte)) :
  forall (fuel : nat) s,
    heap s !! conn = Some c ->
    closed c = false ->
    reads s = map read_frame frames ++ read_failure msg :: rest ->
    (length frames < fuel)%nat ->
    listen_loop Unmarshal fuel conn (Some w) (fun e => tell (out e)) s =
      Return (Some (LibraryError msg))
        (set_reads rest
           (emit (flat_map
                    (fun data =>
                       map Ws (pass_calls (idleTimeout s) (ws_id w)) ++
                       match Unmarshal data with Some e => out e | None => [] end)
                    frames
                  ++ map Ws (pass_calls (idleTimeout s) (ws_id w))) s)).
Proof.
  induction frames as [|data frames IH]; intros fuel s Hl Hc Hr Hf;
    (destruct fuel as [|fuel]; [simpl in Hf; lia|]); rewrite listen_loop_step.
  - rewrite (listen_pass_failure s conn c w _ msg rest Hl Hc Hr). reflexivity.
  - rewrite (listen_pass_frame s conn c w out data _ Hl Hc Hr).
    rewrite IH; [|exact Hl|exact Hc|reflexivity|simpl in Hf; lia].
    f_equal. destruct s. unfold emit, set_trace, set_reads. simpl.
    rewrite <- !app_assoc. reflexivity.
Qed.

(** C4. Frames read without error while the handle stays open, then a
    failing read: the loop makes one pass per frame, in wire order; a
    frame that decodes is handed to the callback, a frame that does not
    decode leaves no trace and does not stop the loop; the loop returns
    the error of the failing read and nothing else. *)
Theorem malformed_frames_are_skipped s (conn : nat) (c : connection) (w : wsConn)
      (out : Envelope -> list event) (frames : list (list Byte.byte))
      (msg : string) (rest : list read_event) (fuel : nat) :
  heap s !! conn = Some c ->
  ws c = Some w ->
  closed c = false ->
  reads s = map read_frame frames ++ read_failure msg :: rest ->
  (length frames < fuel)%nat ->
  listenForMessages Unmarshal fuel conn (fun e => tell (out e)) s =
    Return (Some (LibraryError msg))
      (set_reads rest
         (emit (flat_map
                  (fun data =>
                     map Ws (pass_calls (idleTimeout s) (ws_id w)) ++
                     match Unmarshal data with Some e => out e | None => [] end)
                  frames
                ++ map Ws (pass_calls (idleTimeout s) (ws_id w))) s)).
Proof.
  intros Hl Hw Hc Hr Hf.
  unfold listenForMessages, bind, conn_websocket, with_conn. rewrite Hl.
  unfold ret, Conn.websocket. rewrite Hw.
  now apply (listen_loop_frames conn c).
Qed.

(** One pass when nothing arrives: the goroutine stays in the read. *)
Lemma listen_pass_waits s (conn : nat) (w : wsConn) (cb : Envelope -> M unit) :
  reads s = [] ->
  listen_pass Unmarshal conn (Some w) cb s =
    Blocked (emit (map Ws (pass_calls (idleTimeout s) (ws_id w))) s).
Proof.
  intros Hr. unfold listen_pass, pass_calls, deadline_calls.
  destruct s as [tc idle cb0 cs h n t ds rds]. simpl in *. subst rds.
  unfold bind, get, ws_SetReadDeadline, ws_ReadMessage, on_ws, tell, modify, ret.
  simpl. destruct (idle =? 0)%Z; simpl; unfold emit, set_trace; simpl;
    rewrite <- ?app_assoc; reflexivity.
Qed.

(** The loop on a wire that delivers some frames and then goes silent:
    every frame gets one pass, and one more pass stays in the read. *)
Lemma listen_loop_frames_then_silence (conn : nat) (c : connection) (w : wsConn)
      (out : Envelope -> list event) (frames : list (list Byte.byte)) :
  forall (fuel : nat) s,
    heap s !! conn = Some c ->
    closed c = false ->
    reads s = map read_frame frames ->
    (length frames < fuel)%nat ->
    listen_loop Unmarshal fuel conn (Some w) (fun e => tell (out e)) s =
      Blocked
        (set_reads []
           (emit (flat_map
                    (fun data =>
                       map Ws (pass_calls (idleTimeout s) (ws_id w)) ++
                       match Unmarshal data with Some e => out e | None => [] end)
                    frames
                  ++ map Ws (pass_calls (idleTimeout s) (ws_id w))) s)).
Proof.
  induction frames as [|data frames IH]; intros fuel s Hl Hc Hr Hf;
    (destruct fuel as [|fuel]; [simpl in Hf; lia|]); rewrite listen_loop_step.
  - rewrite (listen_pass_waits s conn w _ Hr). f_equal.
    destruct s. simpl in Hr. subst. reflexivity.
  - rewrite (listen_pass_frame s conn c w out data _ Hl Hc Hr).
    rewrite IH; [|exact Hl|exact Hc|reflexivity|simpl in Hf; lia].
    f_equal. destruct s. unfold emit, set_trace, set_reads. simpl.
    rewrite <- !app_assoc. reflexivity.
Qed.

End Listening.

(** ** The idle-read deadline *)

Section Deadline.

Context {Envelope LogMessage : Type}.
Variable Unmarshal : list Byte.byte -> option Envelope.
Implicit Types (s : @state Envelope LogMessage).

Lemma read_calls_app (t u : list (@event Envelope LogMessage)) :
  read_calls (t ++ u) = read_calls t ++ read_calls u.
Proof. unfold read_calls. apply omap_app. Qed.

Lemma read_calls_close (c : connection) :
  read_calls (map (@Ws Envelope LogMessage) (snd (fst (Conn.close c)))) = [].
Proof. unfold Conn.close. destruct (ws c); reflexivity. Qed.

(** What the loop of [Close] leaves alone: it only touches the heap,
    the registry and, by calls that close websockets, the trace. *)
Lemma Close_loop_frame (cs : list nat) :
  forall s r s',
    Close_loop cs s = r -> final_state r = Some s' ->
    idleTimeout s' = idleTimeout s
    /\ read_calls (trace s') = read_calls (trace s).
Proof.
  induction cs as [|p cs IH]; intros s r s' Hr Hf.
  - simpl in Hr. subst r. injection Hf as <-. auto.
  - destruct (heap s !! p) as [c|] eqn:Hl.
    + rewrite (Close_loop_cons s p cs c Hl) in Hr.
      destruct (snd (Conn.close c)) as [e|].
      * subst r. injection Hf as <-. simpl.
        rewrite read_calls_app, read_calls_close, app_nil_r. auto.
      * destruct (IH _ _ _ Hr Hf) as [Hi Ht]. simpl in Hi, Ht.
        rewrite read_calls_app, read_calls_close, app_nil_r in Ht. auto.
    + simpl in Hr. unfold bind in Hr. rewrite (conn_close_invalid s p Hl) in Hr.
      subst r. injection Hf as <-. auto.
Qed.

Lemma Close_frame s r s' :
  Close s = r -> final_state r = Some s' ->
  idleTimeout s' = idleTimeout s
  /\ read_calls (trace s') = read_calls (trace s).
Proof.
  rewrite Close_unfold. destruct (length (conns s) =? 0)%nat.
  - intros <- Hf. injection Hf as <-. auto.
  - apply Close_loop_frame.
Qed.

#[local] Arguments Close {_ _} _ : simpl never.

Ltac pass_done Hr Hf :=
  subst; injection Hf as <-; simpl;
  repeat match goal with
         | H : _ = _ |- _ => rewrite H
         | |- _ => rewrite read_calls_app
         | H : forall e, read_calls _ = [] |- _ => rewrite H
         end;
  simpl; rewrite <- ?app_assoc, ?app_nil_r; simpl; auto.

(** The websocket calls of one pass: the deadline when the idle timeout
    is not zero, then the read; on the nil pointer there is none. *)
Lemma listen_pass_calls s (conn : nat) (w0 : option wsConn)
      (out : Envelope -> list event) r s' :
  (forall e, read_calls (out e) = []) ->
  listen_pass Unmarshal conn w0 (fun e => tell (out e)) s = r ->
  final_state r = Some s' ->
  idleTimeout s' = idleTimeout s
  /\ read_calls (trace s') =
      read_calls (trace s) ++
      match w0 with
      | Some w => pass_calls (idleTimeout s) (ws_id w)
      | None => []
      end.
Proof.
  intros Hout Hr Hf.
  pose proof Close_frame as HC.
  unfold listen_pass, ws_SetReadDeadline, ws_ReadMessage, on_ws, tell, modify,
    conn_Closed, with_conn, pass_calls, deadline_calls in *.
  unfold bind, get, ret, panic in *.
  destruct s as [tc idle cb cs h n t ds rds]. simpl in *.
  destruct w0 as [w|].
  - destruct (idle =? 0)%Z; simpl in *.
    all: destruct rds as [|rd rds]; simpl in *; [now pass_done Hr Hf|].
    all: match type of Hr with context [terminate ?x] => destruct (terminate x) end;
      simpl in *.
    all: try (match type of Hr with context [Close ?x] =>
                destruct (Close x) as [e s1|why s1|s1|] eqn:HK;
                [pose proof (HC _ _ _ HK eq_refl) as [Hi Ht]
                |pose proof (HC _ _ _ HK eq_refl) as [Hi Ht]
                |pose proof (HC _ _ _ HK eq_refl) as [Hi Ht]
                |subst r; discriminate Hf]
              end; simpl in * ).
    all: try (now pass_done Hr Hf).
    all: match type of Hr with context [@lookup _ _ (list connection) _ ?p ?x] =>
           destruct (x !! p) as [c|] eqn:Hl
         end; simpl in *.
    all: try (now pass_done Hr Hf).
    all: unfold Conn.Closed in *;
      match type of Hr with context [closed ?x] => destruct (closed x) end; simpl in *.
    all: try (now pass_done Hr Hf).
    all: match type of Hr with context [r_err ?x] => destruct (r_err x) end; simpl in *.
    all: try (now pass_done Hr Hf).
    all: match type of Hr with context [Unmarshal ?x] => destruct (Unmarshal x) end;
      simpl in *.
    all: now pass_done Hr Hf.
  - destruct (idle =? 0)%Z; simpl in *; subst r; injection Hf as <-; simpl;
      rewrite app_nil_r; auto.
Qed.

Lemma listen_loop_calls (conn : nat) (w0 : option wsConn)
      (out : Envelope -> list event) (fuel : nat) :
  (forall e, read_calls (out e) = []) ->
  forall s r s',
    listen_loop Unmarshal fuel conn w0 (fun e => tell (out e)) s = r ->
    final_state r = Some s' ->
    idleTimeout s' = idleTimeout s
    /\ exists n : nat,
        read_calls (trace s') =
          read_calls (trace s) ++
          concat (replicate n
                    match w0 with
                    | Some w => pass_calls (idleTimeout s) (ws_id w)
                    | None => []
                    end).
Proof.
  intros Hout. induction fuel as [|fuel IH]; intros s r s' Hr Hf.
  - simpl in Hr. subst r. discriminate Hf.
  - rewrite listen_loop_step in Hr.
    destruct (listen_pass Unmarshal conn w0 (fun e => tell (out e)) s)
      as [[res|] s1|why s1|s1|] eqn:Hp.
    + subst r. simpl in Hf. injection Hf as <-.
      destruct (listen_pass_calls s conn w0 out _ s1 Hout Hp eq_refl) as [Hi Ht].
      split; [exact Hi|]. exists 1%nat. simpl. now rewrite app_nil_r.
    + destruct (listen_pass_calls s conn w0 out _ s1 Hout Hp eq_refl) as [Hi Ht].
      destruct (IH s1 r s' Hr Hf) as [Hi' [n Ht']].
      split; [congruence|]. exists (S n). rewrite Ht', Ht, Hi. simpl.
      now rewrite <- app_assoc.
    + subst r. simpl in Hf. injection Hf as <-.
      destruct (listen_pass_calls s conn w0 out _ s1 Hout Hp eq_refl) as [Hi Ht].
      split; [exact Hi|]. exists 1%nat. simpl. now rewrite app_nil_r.
    + subst r. simpl in Hf. injection Hf as <-.
      destruct (listen_pass_calls s conn w0 out _ s1 Hout Hp eq_refl) as [Hi Ht].
      split; [exact Hi|]. exists 1%nat. simpl. now rewrite app_nil_r.
    + subst r. discriminate Hf.
Qed.

Lemma concat_replicate_nil {A : Type} (n : nat) : concat (replicate n (@nil A)) = [].
Proof. induction n as [|n IH]; simpl; auto. Qed.

Lemma concat_replicate_single {A : Type} (n : nat) (x : A) :
  concat (replicate n [x]) = replicate n x.
Proof. induction n as [|n IH]; simpl; [reflexivity|now rewrite IH]. Qed.

(** The reads of the passes over frames, when no deadline is armed. *)
Lemma read_calls_passes_without_deadline (w : nat)
      (out : Envelope -> list (@event Envelope LogMessage))
      (frames : list (list Byte.byte)) :
  (forall e, read_calls (out e) = []) ->
  read_calls
    (flat_map
       (fun data =>
          map Ws (pass_calls 0 w) ++
          match Unmarshal data with Some e => out e | None => [] end)
       frames)
  = replicate (length frames) (ReadMessage w).
Proof.
  intros Hout. induction frames as [|data frames IH]; [reflexivity|].
  cbn [flat_map length replicate]. rewrite !read_calls_app, IH.
  assert (Ho : read_calls (match Unmarshal data with Some e => out e | None => [] end) = []).
  { destruct (Unmarshal data); [apply Hout|reflexivity]. }
  rewrite Ho. reflexivity.
Qed.

Lemma replicate_snoc {A : Type} (n : nat) (x : A) :
  replicate n x ++ [x] = replicate (S n) x.
Proof. induction n as [|n IH]; simpl; [reflexivity|now rewrite IH]. Qed.

(** C9, as the code has it. Whatever the wire and the other goroutines
    do, the deadline and read calls that [listenForMessages] makes are a
    number of passes on one websocket: when the idle timeout is not zero,
    be it positive or negative, each pass sets the read deadline and then
    reads; when the idle timeout is zero each pass only reads, and no
    deadline is ever set. And with the idle timeout at zero the read
    blocks indefinitely: on an open handle whose wire delivers some frames
    and then goes silent, the call never returns, it stays blocked in the
    read that follows the last frame, and no deadline was armed that
    could end that read. *)
Theorem read_deadline_follows_idle_timeout (fuel : nat) s (conn : nat)
      (out : Envelope -> list event) :
  (forall e, read_calls (out e) = []) ->
  (forall s',
     final_state (listenForMessages Unmarshal fuel conn (fun e => tell (out e)) s) = Some s' ->
     exists w n : nat,
       (idleTimeout s <> 0%Z ->
          read_calls (trace s') =
            read_calls (trace s) ++
            concat (replicate n [SetReadDeadline w (idleTimeout s); ReadMessage w]))
       /\
       (idleTimeout s = 0%Z ->
          read_calls (trace s') = read_calls (trace s) ++ replicate n (ReadMessage w)))
  /\
  (forall (c : connection) (w : wsConn) (frames : list (list Byte.byte)),
     idleTimeout s = 0%Z ->
     heap s !! conn = Some c ->
     ws c = Some w ->
     closed c = false ->
     reads s = map read_frame frames ->
     (length frames < fuel)%nat ->
     exists s',
       listenForMessages Unmarshal fuel conn (fun e => tell (out e)) s = Blocked s'
       /\ read_calls (trace s') =
            read_calls (trace s) ++
            replicate (S (length frames)) (ReadMessage (ws_id w))).
Proof.
  intros Hout. split.
  - intros s' Hf.
    unfold listenForMessages, bind, conn_websocket, with_conn in Hf.
    destruct (heap s !! conn) as [c|] eqn:Hl.
    + unfold ret in Hf.
      destruct (listen_loop_calls conn (Conn.websocket c) out fuel Hout s _ s' eq_refl Hf)
        as [_ [n Ht]].
      destruct (Conn.websocket c) as [w|].
      * exists (ws_id w), n. unfold pass_calls, deadline_calls in Ht. split; intros Hi.
        -- apply Z.eqb_neq in Hi. rewrite Hi in Ht. exact Ht.
        -- rewrite Hi in Ht. simpl in Ht.
           now rewrite concat_replicate_single in Ht.
      * rewrite concat_replicate_nil in Ht. exists 0%nat, 0%nat. split; intros _; exact Ht.
    + simpl in Hf. injection Hf as <-. exists 0%nat, 0%nat.
      split; intros _; simpl; now rewrite app_nil_r.
  - intros c w frames Hi Hl Hw Hc Hr Hfuel.
    eexists. split.
    + unfold listenForMessages, bind, conn_websocket, with_conn. rewrite Hl.
      unfold ret, Conn.websocket. rewrite Hw.
      apply (listen_loop_frames_then_silence Unmarshal conn c w out frames fuel s Hl Hc Hr Hfuel).
    + rewrite Hi. cbn [trace set_reads emit set_trace].
      rewrite !read_calls_app, (read_calls_passes_without_deadline (ws_id w) out frames Hout).
      rewrite <- replicate_snoc. reflexivity.
Qed.

End Deadline.

(** ** Dialing and the retry loop *)

Section Retrying.

Context {Envelope LogMessage : Type}.
Variable Unmarshal : list Byte.byte -> option Envelope.
Variable GetEventType : Envelope -> Z.
Variable GetLogMessage : Envelope -> option LogMessage.
Variable Envelope_LogMessage : Z.
Implicit Types (s : @state Envelope LogMessage).

(** Two states with the same fields are the same state. *)
Lemma state_ext s1 s2 :
  trafficControllerUrl s1 = trafficControllerUrl s2 ->
  idleTimeout s1 = idleTimeout s2 ->
  callback s1 = callback s2 ->
  conns s1 = conns s2 ->
  heap s1 = heap s2 ->
  reconnectAttempts s1 = reconnectAttempts s2 ->
  trace s1 = trace s2 ->
  dials s1 = dials s2 ->
  reads s1 = reads s2 ->
  s1 = s2.
Proof. destruct s1, s2. simpl. intros. subst. reflexivity. Qed.

Ltac same_state :=
  apply state_ext; simpl; rewrite <- ?app_assoc, ?app_nil_r; try reflexivity.

(** Calling a connect callback: the external callbacks it wraps run,
    and the closure of [retryAction] zeroes the attempt counter. *)
Lemma call_run :
  forall (cb : connect_callback) s,
    call cb s =
      Return tt
        (emit (map ConnectCallback (callback_tags cb))
           match cb with
           | ResetAttempts _ => set_reconnectAttempts 0 s
           | External _ => s
           end).
Proof.
  fix IH 1. intros [tag|[f|]] s.
  - reflexivity.
  - simpl. unfold bind, modify. rewrite IH. destruct f; reflexivity.
  - simpl. unfold bind, modify, ret. f_equal. same_state.
Qed.

(** A dial that fails: the error comes back, and no callback runs. *)
Lemma establish_failure s (path authToken : string) (d : dial_result)
      (rest : list dial_result) :
  dials s = d :: rest ->
  dial_fails d = true ->
  exists (w : option wsConn) (e : error),
    dial_failure (trafficControllerUrl s) d = Some e
    /\ establishWebsocketConnection path authToken s =
         Return (w, Some e)
           (set_dials rest (emit (dial_trace (trafficControllerUrl s) path authToken d) s)).
Proof.
  intros Hd Hf.
  unfold dial_fails, unauthorized in Hf. unfold dial_failure, dial_trace.
  unfold establishWebsocketConnection, after_dial, dialer_Dial, tell, modify.
  unfold bind, get, ret. simpl. rewrite Hd.
  destruct d as [dw [resp|] [err|]]; simpl in *;
    try destruct (StatusCode resp =? StatusUnauthorized)%Z; simpl in *;
    try discriminate Hf;
    eexists; eexists; (split; [reflexivity|]); f_equal; same_state.
Qed.

(** A dial that succeeds while the closure of [retryAction] is the
    connect callback: the counter is zeroed. *)
Lemma establish_success s (path authToken : string) (d : dial_result)
      (rest : list dial_result) (old : option connect_callback) :
  dials s = d :: rest ->
  dial_succeeds d = true ->
  callback s = Some (ResetAttempts old) ->
  establishWebsocketConnection path authToken s =
    Return (d_ws d, None)
      (emit (map ConnectCallback (callback_tags (ResetAttempts old)))
         (set_reconnectAttempts 0
            (set_dials rest (emit (dial_trace (trafficControllerUrl s) path authToken d) s)))).
Proof.
  intros Hd Hf Hcb.
  unfold dial_succeeds, unauthorized in Hf. unfold dial_trace.
  unfold establishWebsocketConnection, after_dial, dialer_Dial, tell, modify.
  unfold bind, get, ret. simpl. rewrite Hd.
  destruct d as [dw [resp|] [err|]]; simpl in *;
    try destruct (StatusCode resp =? StatusUnauthorized)%Z; simpl in *;
    try discriminate Hf;
    rewrite Hcb, call_run; f_equal; same_state.
Qed.

(** One attempt whose dial fails. *)
Lemma action_failure (fuel conn : nat) (path authToken : string)
      (cb : Envelope -> M unit) s (c : connection) (d : dial_result)
      (rest : list dial_result) :
  heap s !! conn = Some c ->
  closed c = false ->
  dials s = d :: rest ->
  dial_fails d = true ->
  action Unmarshal fuel conn path authToken cb s =
    Return (dial_failure (trafficControllerUrl s) d, false)
      (set_dials rest (emit (dial_trace (trafficControllerUrl s) path authToken d) s)).
Proof.
  intros Hl Hc Hd Hf.
  destruct (establish_failure s path authToken d rest Hd Hf) as (w & e & He & Hrun).
  unfold action, bind, conn_Closed, with_conn. rewrite Hl.
  unfold ret, Conn.Closed. rewrite Hc, Hrun. simpl. now rewrite He.
Qed.

Lemma retry_loop_step (fuel : nat) (act : M (option error * bool)) (L : Z) s :
  retry_loop (S fuel) act L s =
    if (reconnectAttempts s <=? L)%Z then
      match act s with
      | Return (e, true) s1 => Return tt s1
      | Return (e, false) s1 =>
          retry_loop fuel act L
            (set_reconnectAttempts (uint_incr (reconnectAttempts s1))
               (emit [Sleep] (emit [SendError e] s1)))
      | Panic why s1 => Panic why s1
      | Blocked s1 => Blocked s1
      | OutOfFuel => OutOfFuel
      end
    else Return tt s.
Proof.
  simpl. unfold bind, get. destruct (reconnectAttempts s <=? L)%Z; [|reflexivity].
  destruct (act s) as [[e [|]] s1| | |]; reflexivity.
Qed.

Lemma uint_incr_small (k : Z) : (0 <= k)%Z -> (k + 1 <= maxUint)%Z -> uint_incr k = (k + 1)%Z.
Proof.
  intros H0 H1. unfold uint_incr. apply Z.mod_small.
  unfold maxUint in H1. lia.
Qed.

(** The loop runs through a series of failing dials, one attempt per
    dial, as long as the counter stays within the bound. *)
Lemma retry_loop_failures (conn : nat) (c : connection) (path authToken : string)
      (cb : Envelope -> M unit) (L : Z) (rest : list dial_result)
      (ds : list dial_result) :
  forall s (fuel afuel : nat),
    heap s !! conn = Some c ->
    closed c = false ->
    dials s = ds ++ rest ->
    Forall (fun d => dial_fails d = true) ds ->
    (0 <= reconnectAttempts s)%Z ->
    (reconnectAttempts s + Z.of_nat (length ds) <= L + 1)%Z ->
    (reconnectAttempts s + Z.of_nat (length ds) <= maxUint)%Z ->
    retry_loop (length ds + fuel) (action Unmarshal afuel conn path authToken cb) L s =
      retry_loop fuel (action Unmarshal afuel conn path authToken cb) L
        (set_reconnectAttempts (reconnectAttempts s + Z.of_nat (length ds))
           (set_dials rest
              (emit (flat_map
                       (fun d =>
                          dial_trace (trafficControllerUrl s) path authToken d ++
                          [SendError (dial_failure (trafficControllerUrl s) d); Sleep])
                       ds) s))).
Proof.
  induction ds as [|d ds IH]; intros s fuel afuel Hl Hc Hd Hf H0 HL HM.
  - simpl. f_equal. same_state; [lia|exact Hd].
  - inversion Hf as [|? ? Hfd Hfds]; subst.
    change (length (d :: ds) + fuel)%nat with (S (length ds + fuel)).
    rewrite retry_loop_step.
    simpl length in HL, HM.
    replace (reconnectAttempts s <=? L)%Z with true by (symmetry; apply Z.leb_le; lia).
    rewrite (action_failure afuel conn path authToken cb s c d (ds ++ rest) Hl Hc Hd Hfd).
    rewrite IH; simpl; try assumption; try reflexivity.
    + f_equal. same_state. rewrite uint_incr_small by lia. lia.
    + rewrite uint_incr_small by lia. lia.
    + rewrite uint_incr_small by lia. lia.
    + rewrite uint_incr_small by lia. lia.
Qed.

Lemma retry_loop_exhausted (fuel : nat) (act : M (option error * bool)) (L : Z) s :
  (L < reconnectAttempts s)%Z ->
  retry_loop (S fuel) act L s = Return tt s.
Proof.
  intros H. rewrite retry_loop_step.
  replace (reconnectAttempts s <=? L)%Z with false by (symmetry; apply Z.leb_gt; lia).
  reflexivity.
Qed.

Lemma retryAction_run (fuel : nat) (act : M (option error * bool)) (L : Z) s :
  retryAction fuel act L s =
    match retry_loop fuel act L
            (set_callback (Some (ResetAttempts (callback s))) (set_reconnectAttempts 0 s))
    with
    | Return _ s' => Return tt (set_callback (callback s) s')
    | Panic why s' => Panic why s'
    | Blocked s' => Blocked s'
    | OutOfFuel => OutOfFuel
    end.
Proof.
  unfold retryAction, onConnectCallback, SetOnConnectCallback, bind, modify, get, ret.
  simpl. destruct (retry_loop fuel act L _); reflexivity.
Qed.

Lemma streamAppData_run (fuel : nat) (appGuid authToken : string)
      (cb : Envelope -> M unit) (L : Z) s :
  streamAppData Unmarshal fuel appGuid authToken cb L s =
    retryAction fuel
      (action Unmarshal fuel (length (heap s)) ("/apps/" +:+ appGuid +:+ "/stream")
         authToken cb) L
      (set_conns (conns s ++ [length (heap s)])
         (set_heap (heap s ++ [mkConnection None false]) s)).
Proof. reflexivity. Qed.

Lemma tailingLogs_run (fuel : nat) (appGuid authToken : string) (L : Z) s :
  tailingLogs Unmarshal GetEventType GetLogMessage Envelope_LogMessage
              fuel appGuid authToken L s =
    match streamAppData Unmarshal fuel appGuid authToken
            (fun env =>
               if (GetEventType env =? Envelope_LogMessage)%Z
               then tell [SendLogMessage (GetLogMessage env)]
               else ret tt) L s
    with
    | Return _ s' => Return tt (emit [CloseErrors] (emit [CloseOutputs] s'))
    | Panic why s' => Panic why s'
    | Blocked s' => Blocked s'
    | OutOfFuel => OutOfFuel
    end.
Proof.
  unfold tailingLogs, bind, tell, modify.
  destruct (streamAppData _ _ _ _ _ _ _) ; reflexivity.
Qed.

Lemma new_handle_lookup (h : list connection) (c : connection) :
  (h ++ [c]) !! length h = Some c.
Proof. rewrite lookup_app_r by lia. now rewrite Nat.sub_diag. Qed.

(** *** What a series of failed attempts leaves in the trace *)

Lemma sent_errors_app (t u : list (@event Envelope LogMessage)) :
  sent_errors (t ++ u) = sent_errors t ++ sent_errors u.
Proof. unfold sent_errors. apply omap_app. Qed.

Lemma dialed_app (t u : list (@event Envelope LogMessage)) :
  dialed (t ++ u) = dialed t ++ dialed u.
Proof. unfold dialed. apply omap_app. Qed.

Lemma sent_errors_dial_trace (tc path authToken : string) (d : dial_result) :
  sent_errors (@dial_trace Envelope LogMessage tc path authToken d) = [].
Proof. unfold dial_trace. destruct (d_resp d); reflexivity. Qed.

Lemma dialed_dial_trace (tc path authToken : string) (d : dial_result) :
  dialed (@dial_trace Envelope LogMessage tc path authToken d) = [tc +:+ path].
Proof. unfold dial_trace. destruct (d_resp d); reflexivity. Qed.

Lemma sent_errors_failures (tc path authToken : string) (ds : list dial_result) :
  sent_errors
    (flat_map (fun d => @dial_trace Envelope LogMessage tc path authToken d ++
                        [SendError (dial_failure tc d); Sleep]) ds)
  = map (dial_failure tc) ds.
Proof.
  induction ds as [|d ds IH]; [reflexivity|].
  cbn [flat_map]. rewrite !sent_errors_app, sent_errors_dial_trace, IH. reflexivity.
Qed.

Lemma dialed_failures (tc path authToken : string) (ds : list dial_result) :
  dialed
    (flat_map (fun d => @dial_trace Envelope LogMessage tc path authToken d ++
                        [SendError (dial_failure tc d); Sleep]) ds)
  = replicate (length ds) (tc +:+ path).
Proof.
  induction ds as [|d ds IH]; [reflexivity|].
  cbn [flat_map]. rewrite !dialed_app, dialed_dial_trace, IH. reflexivity.
Qed.

Lemma dial_failure_is_error (tc : string) (d : dial_result) :
  dial_fails d = true -> dial_failure tc d <> None.
Proof.
  unfold dial_fails, unauthorized, dial_failure.
  destruct (d_resp d) as [resp|]; [destruct (StatusCode resp =? StatusUnauthorized)%Z|];
    destruct (d_err d); simpl; congruence.
Qed.

(** The retry controller over a series of failing dials that uses up
    the budget. *)
Lemma retryAction_failures (conn : nat) (c : connection) (path authToken : string)
      (cb : Envelope -> M unit) (L : Z) (ds rest : list dial_result) s (fuel afuel : nat) :
  heap s !! conn = Some c ->
  closed c = false ->
  dials s = ds ++ rest ->
  Forall (fun d => dial_fails d = true) ds ->
  (0 <= L < maxUint)%Z ->
  length ds = (Z.to_nat L + 1)%nat ->
  (length ds < fuel)%nat ->
  exists s',
    retryAction fuel (action Unmarshal afuel conn path authToken cb) L s = Return tt s'
    /\ trace s' =
         trace s ++
         flat_map (fun d =>
                     dial_trace (trafficControllerUrl s) path authToken d ++
                     [SendError (dial_failure (trafficControllerUrl s) d); Sleep]) ds
    /\ dials s' = rest
    /\ callback s' = callback s.
Proof.
  intros Hl Hc Hd Hf HL Hlen Hfuel.
  set (s1 := set_callback (Some (ResetAttempts (callback s))) (set_reconnectAttempts 0 s)).
  assert (Hfu : (fuel = length ds + S (fuel - length ds - 1))%nat) by lia.
  pose proof (retry_loop_failures conn c path authToken cb L rest ds s1
                (S (fuel - length ds - 1)) afuel) as Hrun.
  rewrite <- Hfu in Hrun.
  rewrite retry_loop_exhausted in Hrun by (simpl; lia).
  eexists. split; [|split; [|split]].
  - rewrite retryAction_run. fold s1.
    rewrite Hrun; [reflexivity|exact Hl|exact Hc|exact Hd|exact Hf| | |]; simpl; lia.
  - reflexivity.
  - reflexivity.
  - reflexivity.
Qed.

(** C1, as the code has it. With a retry limit [L] below the largest
    [uint], and [L+1] dials that all fail, the goroutine of [tailingLogs]
    makes exactly [L+1] attempts, sends exactly the [L+1] errors of these
    dials on the error channel, closes both channels and returns. *)
Theorem retries_exhausted_after_limit_plus_one
      (fuel : nat) (appGuid authToken : string) (L : Z) s
      (ds rest : list dial_result) :
  (0 <= L < maxUint)%Z ->
  length ds = (Z.to_nat L + 1)%nat ->
  Forall (fun d => dial_fails d = true) ds ->
  dials s = ds ++ rest ->
  (Z.to_nat L + 1 < fuel)%nat ->
  exists s',
    tailingLogs Unmarshal GetEventType GetLogMessage Envelope_LogMessage
                fuel appGuid authToken L s = Return tt s'
    /\ dialed (trace s') =
         dialed (trace s) ++
         replicate (Z.to_nat L + 1)
           (trafficControllerUrl s +:+ "/apps/" +:+ appGuid +:+ "/stream")
    /\ sent_errors (trace s') =
         sent_errors (trace s) ++ map (dial_failure (trafficControllerUrl s)) ds
    /\ Forall (fun d => dial_failure (trafficControllerUrl s) d <> None) ds
    /\ (exists t, trace s' = t ++ [CloseOutputs; CloseErrors])
    /\ dials s' = rest.
Proof.
  intros HL Hlen Hf Hd Hfuel.
  rewrite tailingLogs_run, streamAppData_run.
  edestruct (retryAction_failures (length (heap s)) (mkConnection None false)
               ("/apps/" +:+ appGuid +:+ "/stream") authToken
               (fun env : Envelope =>
                  if (GetEventType env =? Envelope_LogMessage)%Z
                  then tell [SendLogMessage (GetLogMessage env)]
                  else ret tt) L ds rest
               (set_conns (conns s ++ [length (heap s)])
                  (set_heap (heap s ++ [mkConnection None false]) s)) fuel fuel)
    as (s' & Hrun & Ht & Hds & _).
  - apply new_handle_lookup.
  - reflexivity.
  - exact Hd.
  - exact Hf.
  - exact HL.
  - exact Hlen.
  - lia.
  - rewrite Hrun. cbn [trace trafficControllerUrl set_conns set_heap] in Ht.
    eexists. split; [reflexivity|]. cbn [trace dials emit set_trace]. rewrite Ht.
    split; [|split; [|split; [|split]]].
    + rewrite !dialed_app, dialed_failures, Hlen. simpl. now rewrite !app_nil_r.
    + rewrite !sent_errors_app, sent_errors_failures. simpl. now rewrite !app_nil_r.
    + eapply Forall_impl; [exact Hf|]. intros d. apply dial_failure_is_error.
    + eexists. rewrite <- app_assoc. reflexivity.
    + exact Hds.
Qed.

Lemma runStream_run (fuel : nat) (appGuid authToken : string) (L : Z) s :
  runStream Unmarshal fuel appGuid authToken L s =
    match streamAppData Unmarshal fuel appGuid authToken
            (fun env => tell [SendEnvelope env]) L s
    with
    | Return _ s' => Return tt (emit [CloseErrors] (emit [CloseOutputs] s'))
    | Panic why s' => Panic why s'
    | Blocked s' => Blocked s'
    | OutOfFuel => OutOfFuel
    end.
Proof.
  unfold runStream, bind, tell, modify.
  destruct (streamAppData _ _ _ _ _ _ _) ; reflexivity.
Qed.

Lemma firehose_run (fuel : nat) (subID authToken : string) (L : Z) s :
  firehose Unmarshal fuel subID authToken L s =
    match retryAction fuel
            (action Unmarshal fuel (length (heap s)) ("/firehose/" +:+ subID) authToken
               (fun env => tell [SendEnvelope env])) L
            (set_conns (conns s ++ [length (heap s)])
               (set_heap (heap s ++ [mkConnection None false]) s))
    with
    | Return _ s' => Return tt (emit [CloseErrors] (emit [CloseOutputs] s'))
    | Panic why s' => Panic why s'
    | Blocked s' => Blocked s'
    | OutOfFuel => OutOfFuel
    end.
Proof.
  unfold firehose, newConn, bind, get, tell, modify, ret. simpl.
  destruct (retryAction _ _ _ _) ; reflexivity.
Qed.

Lemma unauthorized_fails (d : dial_result) (resp : Response) (tc : string) :
  d_resp d = Some resp ->
  StatusCode resp = 401%Z ->
  dial_fails d = true
  /\ dial_failure tc d = Some (NewUnauthorizedError (Body resp)).
Proof.
  intros Hr Hc. unfold dial_fails, unauthorized, dial_failure. rewrite Hr, Hc.
  split; reflexivity.
Qed.

(** One failing dial with the retry limit zero. *)
Lemma retryAction_single_failure (conn : nat) (path authToken : string)
      (cb : Envelope -> M unit) (d : dial_result) (rest : list dial_result)
      s (fuel : nat) :
  heap s !! conn = Some (mkConnection None false) ->
  dials s = d :: rest ->
  dial_fails d = true ->
  (1 < fuel)%nat ->
  exists s',
    retryAction fuel (action Unmarshal fuel conn path authToken cb) 0 s = Return tt s'
    /\ sent_errors (trace s') =
         sent_errors (trace s) ++ [dial_failure (trafficControllerUrl s) d].
Proof.
  intros Hl Hd Hf Hfuel.
  destruct (retryAction_failures conn (mkConnection None false) path authToken cb 0
              [d] rest s fuel fuel) as (s' & Hrun & Ht & _).
  - exact Hl.
  - reflexivity.
  - exact Hd.
  - constructor; [exact Hf|constructor].
  - unfold maxUint, uintSize. lia.
  - reflexivity.
  - exact Hfuel.
  - exists s'. split; [exact Hrun|]. rewrite Ht. cbn [flat_map].
    rewrite !sent_errors_app, sent_errors_dial_trace. reflexivity.
Qed.

(** C5. A dial answered with status 401: [establishWebsocketConnection]
    returns an [UnauthorizedError] with the body of the response, touches
    neither the attempt counter nor any connect callback; and each of the
    three operations without reconnection sends that one error on the
    error channel, then closes both channels. *)
Theorem unauthorized_dial_is_reported_once
      (fuel : nat) (name authToken : string) s
      (d : dial_result) (rest : list dial_result) (resp : Response) :
  dials s = d :: rest ->
  d_resp d = Some resp ->
  StatusCode resp = 401%Z ->
  (1 < fuel)%nat ->
  (forall path : string,
     establishWebsocketConnection path authToken s =
       Return (d_ws d, Some (NewUnauthorizedError (Body resp)))
         (set_dials rest (emit (dial_trace (trafficControllerUrl s) path authToken d) s))
     /\ callbacks_run (@dial_trace Envelope LogMessage
                         (trafficControllerUrl s) path authToken d) = [])
  /\
  (forall run : nat -> string -> string -> M unit,
     run = TailingLogsWithoutReconnect Unmarshal GetEventType GetLogMessage
             Envelope_LogMessage
     \/ run = StreamWithoutReconnect Unmarshal
     \/ run = FirehoseWithoutReconnect Unmarshal ->
     exists s',
       run fuel name authToken s = Return tt s'
       /\ sent_errors (trace s') =
            sent_errors (trace s) ++ [Some (NewUnauthorizedError (Body resp))]
       /\ exists t, trace s' = t ++ [CloseOutputs; CloseErrors]).
Proof.
  intros Hd Hr Hc Hfuel.
  destruct (unauthorized_fails d resp (trafficControllerUrl s) Hr Hc) as [Hf He].
  split.
  - intros path. split.
    + unfold dial_trace.
      unfold establishWebsocketConnection, after_dial, dialer_Dial, tell, modify.
      unfold bind, get, ret. simpl. rewrite Hd, Hr. simpl. rewrite Hc. simpl.
      f_equal. same_state.
    + unfold dial_trace. rewrite Hr. reflexivity.
  - intros run [-> | [-> | ->]].
    + unfold TailingLogsWithoutReconnect. rewrite tailingLogs_run, streamAppData_run.
      edestruct retryAction_single_failure as (s' & -> & Ht);
        [apply new_handle_lookup|exact Hd|exact Hf|exact Hfuel|].
      eexists. split; [reflexivity|]. simpl in *. split.
      * rewrite !sent_errors_app, Ht, He. simpl. now rewrite !app_nil_r.
      * eexists. rewrite <- app_assoc. reflexivity.
    + unfold StreamWithoutReconnect. rewrite runStream_run, streamAppData_run.
      edestruct retryAction_single_failure as (s' & -> & Ht);
        [apply new_handle_lookup|exact Hd|exact Hf|exact Hfuel|].
      eexists. split; [reflexivity|]. simpl in *. split.
      * rewrite !sent_errors_app, Ht, He. simpl. now rewrite !app_nil_r.
      * eexists. rewrite <- app_assoc. reflexivity.
    + unfold FirehoseWithoutReconnect. rewrite firehose_run.
      edestruct retryAction_single_failure as (s' & -> & Ht);
        [apply new_handle_lookup|exact Hd|exact Hf|exact Hfuel|].
      eexists. split; [reflexivity|]. simpl in *. split.
      * rewrite !sent_errors_app, Ht, He. simpl. now rewrite !app_nil_r.
      * eexists. rewrite <- app_assoc. reflexivity.
Qed.

(** *** A successful upgrade resets the counter *)

Lemma dial_succeeds_inv (d : dial_result) :
  dial_succeeds d = true ->
  unauthorized d = false /\ d_err d = None /\ exists w, d_ws d = Some w.
Proof.
  unfold dial_succeeds. intros H.
  apply andb_prop in H as [H Hw]. apply andb_prop in H as [Hu He].
  destruct (unauthorized d); [discriminate|].
  destruct (d_err d); [discriminate|].
  destruct (d_ws d) as [w|]; [eauto|discriminate].
Qed.

Lemma sent_errors_callbacks (l : list nat) :
  sent_errors (map (@ConnectCallback Envelope LogMessage) l) = [].
Proof. induction l as [|x l IH]; [reflexivity|exact IH]. Qed.

Lemma dialed_callbacks (l : list nat) :
  dialed (map (@ConnectCallback Envelope LogMessage) l) = [].
Proof. induction l as [|x l IH]; [reflexivity|exact IH]. Qed.

Lemma sent_errors_ws (l : list ws_call) :
  sent_errors (map (@Ws Envelope LogMessage) l) = [].
Proof. induction l as [|x l IH]; [reflexivity|exact IH]. Qed.

Lemma dialed_ws (l : list ws_call) :
  dialed (map (@Ws Envelope LogMessage) l) = [].
Proof. induction l as [|x l IH]; [reflexivity|exact IH]. Qed.

Lemma action_connected (fuel conn : nat) (path authToken : string)
      (cb : Envelope -> M unit) s (c : connection) (d : dial_result)
      (rest : list dial_result) (old : option connect_callback) (w : wsConn) :
  heap s !! conn = Some c ->
  closed c = false ->
  dials s = d :: rest ->
  dial_succeeds d = true ->
  d_ws d = Some w ->
  callback s = Some (ResetAttempts old) ->
  action Unmarshal fuel conn path authToken cb s =
    match
      listen_loop Unmarshal fuel conn (Some w) cb
        (set_heap (<[conn := mkConnection (Some w) false]> (heap s))
           (emit (map ConnectCallback (callback_tags (ResetAttempts old)))
              (set_reconnectAttempts 0
                 (set_dials rest
                    (emit (dial_trace (trafficControllerUrl s) path authToken d) s)))))
    with
    | Return e s' => Return (e, false) s'
    | Panic why s' => Panic why s'
    | Blocked s' => Blocked s'
    | OutOfFuel => OutOfFuel
    end.
Proof.
  intros Hl Hc Hd Hs Hw Hcb.
  unfold action, bind, conn_Closed, with_conn. rewrite Hl.
  unfold ret, Conn.Closed. rewrite Hc.
  rewrite (establish_success s path authToken d rest old Hd Hs Hcb).
  cbn [snd fst]. unfold conn_setWebsocket, with_conn. cbn [heap emit set_trace
    set_reconnectAttempts set_dials]. rewrite Hl.
  unfold modify, listenForMessages, bind, conn_websocket, with_conn.
  cbn [heap set_heap].
  rewrite list_lookup_insert_eq by (now apply lookup_lt_Some with c).
  unfold ret, Conn.websocket, Conn.setWebsocket. cbn [ws closed]. rewrite Hw, Hc.
  reflexivity.
Qed.

(** The attempt that connects and then waits for a frame that never
    comes: the goroutine is blocked in the read, the counter at zero. *)
Lemma action_connects_and_waits (fuel conn : nat) (path authToken : string)
      (cb : Envelope -> M unit) s (c : connection) (d : dial_result)
      (old : option connect_callback) :
  heap s !! conn = Some c ->
  closed c = false ->
  dials s = [d] ->
  dial_succeeds d = true ->
  callback s = Some (ResetAttempts old) ->
  reads s = [] ->
  exists s',
    action Unmarshal (S fuel) conn path authToken cb s = Blocked s'
    /\ reconnectAttempts s' = 0%Z
    /\ sent_errors (trace s') = sent_errors (trace s)
    /\ dialed (trace s') = dialed (trace s) ++ [trafficControllerUrl s +:+ path].
Proof.
  intros Hl Hc Hd Hs Hcb Hr.
  destruct (dial_succeeds_inv d Hs) as (_ & _ & w & Hw).
  rewrite (action_connected (S fuel) conn path authToken cb s c d [] old w
             Hl Hc Hd Hs Hw Hcb).
  rewrite listen_loop_step, listen_pass_waits by exact Hr.
  eexists. split; [reflexivity|].
  cbn [reconnectAttempts trace emit set_trace set_heap set_reconnectAttempts set_dials].
  split; [reflexivity|].
  rewrite !sent_errors_app, !dialed_app, sent_errors_dial_trace, dialed_dial_trace,
    sent_errors_callbacks, dialed_callbacks, sent_errors_ws, dialed_ws.
  now rewrite !app_nil_r.
Qed.

(** The attempt that connects, and whose first read fails: the loop
    goes on with the counter at one. *)
Lemma retry_loop_connection_lost (fuel afuel conn : nat) (path authToken : string)
      (cb : Envelope -> M unit) (L : Z) s (c : connection) (d : dial_result)
      (rest : list dial_result) (old : option connect_callback)
      (msg : string) (rs : list read_event) :
  heap s !! conn = Some c ->
  closed c = false ->
  dials s = d :: rest ->
  dial_succeeds d = true ->
  callback s = Some (ResetAttempts old) ->
  reads s = read_failure msg :: rs ->
  (reconnectAttempts s <= L)%Z ->
  exists s2 c2,
    retry_loop (S fuel) (action Unmarshal (S afuel) conn path authToken cb) L s =
      retry_loop fuel (action Unmarshal (S afuel) conn path authToken cb) L s2
    /\ heap s2 !! conn = Some c2 /\ closed c2 = false
    /\ dials s2 = rest
    /\ reconnectAttempts s2 = 1%Z
    /\ trafficControllerUrl s2 = trafficControllerUrl s
    /\ sent_errors (trace s2) = sent_errors (trace s) ++ [Some (LibraryError msg)]
    /\ dialed (trace s2) = dialed (trace s) ++ [trafficControllerUrl s +:+ path].
Proof.
  intros Hl Hc Hd Hs Hcb Hr HL.
  destruct (dial_succeeds_inv d Hs) as (_ & _ & w & Hw).
  rewrite retry_loop_step.
  replace (reconnectAttempts s <=? L)%Z with true by (symmetry; apply Z.leb_le; lia).
  rewrite (action_connected (S afuel) conn path authToken cb s c d rest old w
             Hl Hc Hd Hs Hw Hcb).
  rewrite listen_loop_step.
  erewrite (listen_pass_failure Unmarshal _ conn (mkConnection (Some w) false) w cb msg rs).
  - eexists. eexists. split; [reflexivity|].
    cbn [heap dials reconnectAttempts trafficControllerUrl trace emit set_trace set_heap
         set_reads set_reconnectAttempts set_dials].
    rewrite list_lookup_insert_eq by (now apply lookup_lt_Some with c).
    split; [reflexivity|]. split; [reflexivity|]. split; [reflexivity|].
    split; [reflexivity|]. split; [reflexivity|].
    rewrite !sent_errors_app, !dialed_app, sent_errors_dial_trace, dialed_dial_trace,
      sent_errors_callbacks, dialed_callbacks, sent_errors_ws, dialed_ws.
    cbn [sent_errors dialed omap]. now rewrite !app_nil_r.
  - cbn [heap set_heap].
    rewrite list_lookup_insert_eq by (now apply lookup_lt_Some with c). reflexivity.
  - reflexivity.
  - exact Hr.
Qed.

(** An attempt for which the dialer has no answer: the goroutine is
    blocked in the dial. *)
Lemma retry_loop_waits_for_dial (fuel afuel conn : nat) (path authToken : string)
      (cb : Envelope -> M unit) (L : Z) s (c : connection) :
  heap s !! conn = Some c ->
  closed c = false ->
  dials s = [] ->
  (reconnectAttempts s <= L)%Z ->
  exists s',
    retry_loop (S fuel) (action Unmarshal afuel conn path authToken cb) L s = Blocked s'
    /\ reconnectAttempts s' = reconnectAttempts s
    /\ sent_errors (trace s') = sent_errors (trace s)
    /\ dialed (trace s') = dialed (trace s) ++ [trafficControllerUrl s +:+ path].
Proof.
  intros Hl Hc Hd HL.
  rewrite retry_loop_step.
  replace (reconnectAttempts s <=? L)%Z with true by (symmetry; apply Z.leb_le; lia).
  unfold action, bind, conn_Closed, with_conn. rewrite Hl.
  unfold ret, Conn.Closed. rewrite Hc.
  unfold establishWebsocketConnection, dialer_Dial, tell, modify, bind, get.
  cbn [dials emit set_trace]. rewrite Hd.
  eexists. split; [reflexivity|].
  cbn [reconnectAttempts trace emit set_trace].
  rewrite !sent_errors_app, !dialed_app.
  cbn [sent_errors dialed omap]. rewrite !app_nil_r. auto.
Qed.

(** C2. After [N] failed dials, [N] within the limit [L], a successful
    upgrade runs the callback installed by [retryAction] and the attempt
    counter is zero while the stream is read. From there the counter
    counts the failures since that connection: when the connection is
    lost and [K-1] further dials fail, [K] failures in a row with [K]
    within the limit (in particular [K = N]), the counter is [K], the
    budget is not used up and the loop goes on to dial again. *)
Theorem attempt_counter_resets_on_connect
      (fuel : nat) (appGuid authToken : string) (L : Z) (N K : nat) s
      (fails1 fails2 : list dial_result) (ok : dial_result) (msg : string) :
  (0 <= L <= maxUint)%Z ->
  (Z.of_nat N <= L)%Z ->
  length fails1 = N ->
  Forall (fun d => dial_fails d = true) fails1 ->
  dial_succeeds ok = true ->
  (N + K + 1 < fuel)%nat ->
  (dials s = fails1 ++ [ok] ->
   reads s = [] ->
   exists s',
     tailingLogs Unmarshal GetEventType GetLogMessage Envelope_LogMessage
                 fuel appGuid authToken L s = Blocked s'
     /\ reconnectAttempts s' = 0%Z
     /\ sent_errors (trace s') =
          sent_errors (trace s) ++ map (dial_failure (trafficControllerUrl s)) fails1)
  /\
  ((1 <= K)%nat ->
   (Z.of_nat K <= L)%Z ->
   length fails2 = (K - 1)%nat ->
   Forall (fun d => dial_fails d = true) fails2 ->
   dials s = fails1 ++ ok :: fails2 ->
   reads s = [read_failure msg] ->
   exists s',
     tailingLogs Unmarshal GetEventType GetLogMessage Envelope_LogMessage
                 fuel appGuid authToken L s = Blocked s'
     /\ reconnectAttempts s' = Z.of_nat K
     /\ sent_errors (trace s') =
          sent_errors (trace s) ++
          map (dial_failure (trafficControllerUrl s)) fails1 ++
          [Some (LibraryError msg)] ++
          map (dial_failure (trafficControllerUrl s)) fails2
     /\ length (dialed (trace s')) = (length (dialed (trace s)) + (N + 1 + (K - 1) + 1))%nat).
Proof.
  intros HL HN Hlen1 Hf1 Hok Hfuel.
  set (cb := fun env : Envelope =>
               if (GetEventType env =? Envelope_LogMessage)%Z
               then @tell Envelope LogMessage [SendLogMessage (GetLogMessage env)]
               else ret tt).
  set (path := "/apps/" +:+ appGuid +:+ "/stream").
  set (conn := length (heap s)).
  set (s1 := set_callback (Some (ResetAttempts (callback s)))
               (set_reconnectAttempts 0
                  (set_conns (conns s ++ [conn])
                     (set_heap (heap s ++ [mkConnection None false]) s)))).
  assert (Hl1 : heap s1 !! conn = Some (mkConnection None false))
    by apply new_handle_lookup.
  assert (Hn1 : reconnectAttempts s1 = 0%Z) by reflexivity.
  assert (Ht1 : trace s1 = trace s) by reflexivity.
  assert (Hu1 : trafficControllerUrl s1 = trafficControllerUrl s) by reflexivity.
  destruct fuel as [|afuel]; [lia|].
  assert (Hgoal :
    tailingLogs Unmarshal GetEventType GetLogMessage Envelope_LogMessage
                (S afuel) appGuid authToken L s =
      match retry_loop (S afuel) (action Unmarshal (S afuel) conn path authToken cb) L s1
      with
      | Return _ s' =>
          Return tt (emit [CloseErrors] (emit [CloseOutputs] (set_callback (callback s) s')))
      | Panic why s' => Panic why s'
      | Blocked s' => Blocked s'
      | OutOfFuel => OutOfFuel
      end).
  { rewrite tailingLogs_run, streamAppData_run, retryAction_run.
    fold cb path conn s1. destruct (retry_loop _ _ _ _); reflexivity. }
  split.
  - intros Hd Hr.
    assert (Hfu : (S afuel = length fails1 + S (afuel - length fails1))%nat) by lia.
    pose proof (retry_loop_failures conn (mkConnection None false) path authToken cb L
                  [ok] fails1 s1 (S (afuel - length fails1)) (S afuel)
                  Hl1 eq_refl Hd Hf1) as Hrun.
    rewrite <- Hfu, Hn1, Hu1 in Hrun.
    specialize (Hrun ltac:(lia) ltac:(lia) ltac:(lia)).
    match type of Hrun with _ = retry_loop _ _ _ ?x => set (smid := x) in * end.
    destruct (action_connects_and_waits afuel conn path authToken cb smid
                (mkConnection None false) ok (callback s) Hl1 eq_refl eq_refl Hok
                eq_refl Hr) as (s' & Hact & Hc' & He' & _).
    exists s'. split; [|split; [exact Hc'|]].
    + rewrite Hgoal, Hrun, retry_loop_step.
      replace (reconnectAttempts smid <=? L)%Z with true
        by (symmetry; apply Z.leb_le; unfold smid;
            cbn [reconnectAttempts set_reconnectAttempts]; lia).
      rewrite Hact. reflexivity.
    + rewrite He'. unfold smid.
      cbn [trace emit set_trace set_dials set_reconnectAttempts].
      now rewrite Ht1, sent_errors_app, sent_errors_failures.
  - intros HK1 HK Hlen2 Hf2 Hd Hr.
    assert (Hfu : (S afuel = length fails1 + S (length fails2 + S (afuel - N - K)))%nat)
      by lia.
    pose proof (retry_loop_failures conn (mkConnection None false) path authToken cb L
                  (ok :: fails2) fails1 s1 (S (length fails2 + S (afuel - N - K)))
                  (S afuel) Hl1 eq_refl Hd Hf1) as Hrun.
    rewrite <- Hfu, Hn1, Hu1 in Hrun.
    specialize (Hrun ltac:(lia) ltac:(lia) ltac:(lia)).
    match type of Hrun with _ = retry_loop _ _ _ ?x => set (smid := x) in * end.
    assert (Hnm : reconnectAttempts smid = (0 + Z.of_nat (length fails1))%Z)
      by reflexivity.
    destruct (retry_loop_connection_lost (length fails2 + S (afuel - N - K)) afuel conn
                path authToken cb L smid (mkConnection None false) ok fails2 (callback s)
                msg [] Hl1 eq_refl eq_refl Hok eq_refl Hr ltac:(lia))
      as (s2 & c2 & Hstep & Hl2 & Hc2 & Hd2 & Hn2 & Htc2 & He2 & Hdl2).
    pose proof (retry_loop_failures conn c2 path authToken cb L [] fails2 s2
                  (S (afuel - N - K)) (S afuel) Hl2 Hc2) as Hrun2.
    rewrite app_nil_r in Hrun2. specialize (Hrun2 Hd2 Hf2).
    rewrite Hn2 in Hrun2.
    specialize (Hrun2 ltac:(lia) ltac:(lia) ltac:(lia)).
    match type of Hrun2 with _ = retry_loop _ _ _ ?x => set (s3 := x) in * end.
    destruct (retry_loop_waits_for_dial (afuel - N - K) (S afuel) conn path authToken
                cb L s3 c2 Hl2 Hc2 eq_refl)
      as (s' & Hblk & Hn' & He' & Hdl').
    { unfold s3. cbn [reconnectAttempts set_reconnectAttempts]. lia. }
    exists s'. split; [|split; [|split]].
    + rewrite Hgoal, Hrun, Hstep, Hrun2, Hblk. reflexivity.
    + rewrite Hn'. unfold s3. cbn [reconnectAttempts set_reconnectAttempts]. lia.
    + rewrite He'. unfold s3. cbn [trace emit set_trace set_dials set_reconnectAttempts].
      rewrite sent_errors_app, sent_errors_failures, He2, Htc2.
      unfold smid.
      cbn [trace emit set_trace set_dials set_reconnectAttempts trafficControllerUrl].
      rewrite Ht1, sent_errors_app, sent_errors_failures.
      rewrite <- !app_assoc. reflexivity.
    + rewrite Hdl'. unfold s3. cbn [trace emit set_trace set_dials set_reconnectAttempts].
      rewrite dialed_app, dialed_failures, Hdl2.
      unfold smid.
      cbn [trace emit set_trace set_dials set_reconnectAttempts trafficControllerUrl].
      rewrite Ht1, dialed_app, dialed_failures.
      rewrite !length_app, !length_replicate. simpl length. lia.
Qed.

End Retrying.

(** With the largest [uint] as limit the guard of the loop never fails:
    an action that always fails is retried for ever. *)
Lemma retry_loop_never_ends_at_maxUint {Envelope LogMessage : Type}
      (e : option error) (fuel : nat) :
  forall s : @state Envelope LogMessage,
    (0 <= reconnectAttempts s <= maxUint)%Z ->
    retry_loop fuel (fun s => Return (e, false) s) maxUint s = OutOfFuel.
Proof.
  induction fuel as [|fuel IH]; intros s Hs; [reflexivity|].
  rewrite retry_loop_step.
  replace (reconnectAttempts s <=? maxUint)%Z with true by (symmetry; apply Z.leb_le; lia).
  apply IH. cbn [reconnectAttempts set_reconnectAttempts emit set_trace].
  unfold uint_incr, maxUint, uintSize.
  pose proof (Z.mod_pos_bound (reconnectAttempts s + 1) (2 ^ 64) ltac:(lia)). lia.
Qed.

(** ** Runs on concrete scripts *)

(** C3, on the code. One stream, connected; another goroutine calls
    [Close] while the read blocks. The read loop returns nil, but the
    closure [action] hands that nil to [retryAction] with [done] false, and
    [retryAction] sends it: the error channel carries one nil value before
    both channels are closed, with the retry limit 0 as with the limit 5. *)
Theorem local_close_sends_nil_on_error_channel :
  (exists s',
     tailingLogs toy_Unmarshal toy_GetEventType toy_GetLogMessage toy_LogMessage
                 10 "app" "token" 0 (toy_state [dial_ok toy_ws] [read_terminated])
       = Return tt s'
     /\ sent_errors (trace s') = [None]
     /\ ws_calls (trace s') = [ReadMessage 1; WriteControlClose 1; WsClose 1]
     /\ is_closed (heap s') 0 = true)
  /\
  (exists s',
     tailingLogs toy_Unmarshal toy_GetEventType toy_GetLogMessage toy_LogMessage
                 10 "app" "token" maxRetries (toy_state [dial_ok toy_ws] [read_terminated])
       = Return tt s'
     /\ sent_errors (trace s') = [None]
     /\ ws_calls (trace s') = [ReadMessage 1; WriteControlClose 1; WsClose 1]
     /\ is_closed (heap s') 0 = true).
Proof.
  split; (eexists; split; [vm_compute; reflexivity|]);
    repeat split; vm_compute; reflexivity.
Qed.

(** C1, as stated, fails: with the limit 1, three attempts that each end
    with an error ([done] false) because the upgrade succeeds and the first
    read fails. The loop makes the three attempts, sends three errors and
    goes on to a fourth dial: each upgrade has put the counter back to
    zero. *)
Lemma retry_limit_not_reached_by_lost_connections :
  exists s',
    tailingLogs toy_Unmarshal toy_GetEventType toy_GetLogMessage toy_LogMessage
                10 "app" "token" 1
                (toy_state [dial_ok toy_ws; dial_ok toy_ws; dial_ok toy_ws]
                           [read_failure "EOF"; read_failure "EOF"; read_failure "EOF"])
      = Blocked s'
    /\ sent_errors (trace s') =
         [Some (LibraryError "EOF"); Some (LibraryError "EOF"); Some (LibraryError "EOF")]
    /\ length (dialed (trace s')) = 4%nat.
Proof.
  eexists. split; [vm_compute; reflexivity|]. split; vm_compute; reflexivity.
Qed.

(** C9, as stated, fails: a negative idle timeout is not positive, and
    the read deadline is set all the same. *)
Lemma negative_idle_timeout_sets_deadline :
  ~ (0 < -1)%Z
  /\ exists s',
       listenForMessages toy_Unmarshal 5 0 (fun e => tell [SendEnvelope e])
                         (toy_connected (-1) [read_failure "EOF"])
         = Return (Some (LibraryError "EOF")) s'
       /\ read_calls (trace s') = [SetReadDeadline 1 (-1); ReadMessage 1].
Proof.
  split; [lia|]. eexists. split; vm_compute; reflexivity.
Qed.

(** ** The theorems at concrete inputs *)

Lemma Close_closes_every_handle_witness :
  Close (toy_registry [] []) =
    Return (Some (errors_New "connection does not exist")) (toy_registry [] [])
  /\
  (exists s',
     Close (toy_registry [0; 1]%nat
              [mkConnection (Some toy_ws) false; mkConnection (Some toy_ws) false])
       = Return None s'
     /\ conns s' = []
     /\ Forall (fun p => is_closed (heap s') p = true) [0; 1]%nat
     /\ ws_calls (trace s') =
          [WriteControlClose 1; WsClose 1; WriteControlClose 1; WsClose 1])
  /\
  (exists s',
     Close (toy_registry [0; 1; 2]%nat
              [mkConnection (Some toy_ws) false; mkConnection (Some toy_ws_failing) false;
               mkConnection (Some toy_ws) false])
       = Return (Some (LibraryError "broken pipe")) s'
     /\ conns s' = [1; 2]%nat
     /\ Forall (fun q => is_closed (heap s') q = true) [0; 1]%nat
     /\ ws_calls (trace s') =
          [WriteControlClose 1; WsClose 1; WriteControlClose 2; WsClose 2])
  /\
  (exists s',
     Close (toy_registry [0; 1]%nat
              [mkConnection (Some toy_ws) false; mkConnection None false])
       = Return (Some (errors_New "connection does not exist")) s'
     /\ conns s' = [1]%nat
     /\ ws_calls (trace s') = [WriteControlClose 1; WsClose 1]).
Proof.
  split; [|split; [|split]].
  - apply (proj1 (Close_closes_every_handle (toy_registry [] []))). reflexivity.
  - destruct (proj1 (proj2 (Close_closes_every_handle
                (toy_registry [0; 1]%nat
                   [mkConnection (Some toy_ws) false; mkConnection (Some toy_ws) false])))
                [0; 1]%nat [toy_ws; toy_ws] ltac:(discriminate) eq_refl
                ltac:(repeat constructor; eexists; split; reflexivity))
      as (s' & Hrun & Hc & Hall & Ht).
    exists s'. auto.
  - destruct (proj2 (proj2 (proj2 (Close_closes_every_handle
                (toy_registry [0; 1; 2]%nat
                   [mkConnection (Some toy_ws) false; mkConnection (Some toy_ws_failing) false;
                    mkConnection (Some toy_ws) false])))
                [0%nat] [toy_ws] 1%nat [2%nat] (mkConnection (Some toy_ws_failing) false)
                eq_refl ltac:(repeat constructor; eexists; split; reflexivity) eq_refl)
                toy_ws_failing "broken pipe" eq_refl eq_refl)
      as (s' & Hrun & Hc & Hall & Ht).
    exists s'. auto.
  - destruct (proj1 (proj2 (proj2 (Close_closes_every_handle
                (toy_registry [0; 1]%nat
                   [mkConnection (Some toy_ws) false; mkConnection None false])))
                [0%nat] [toy_ws] 1%nat [] (mkConnection None false)
                eq_refl ltac:(repeat constructor; eexists; split; reflexivity) eq_refl)
                eq_refl)
      as (s' & Hrun & Hc & _ & Ht).
    exists s'. auto.
Defined.

Lemma Close_before_websocket_witness :
  Conn.close (mkConnection None false) =
    ({| ws := None; closed := true |}, [], Some (errors_New "connection does not exist"))
  /\
  exists s',
    Close (toy_registry [0]%nat [mkConnection None false])
      = Return (Some (errors_New "connection does not exist")) s'
    /\ conns s' = [0]%nat
    /\ heap s' !! 0%nat = Some {| ws := None; closed := true |}
    /\ trace s' = trace (toy_registry [0]%nat [mkConnection None false]).
Proof.
  apply (Close_before_websocket (toy_registry [0]%nat [mkConnection None false])
           0 [] (mkConnection None false)); reflexivity.
Defined.

Lemma malformed_frames_are_skipped_witness :
  exists s',
    listenForMessages toy_Unmarshal 4 0 (fun e => tell [SendEnvelope e])
      (toy_connected 0
         (map read_frame [[Byte.x01]; []; [Byte.x02]] ++ [read_failure "EOF"]))
      = Return (Some (LibraryError "EOF")) s'
    /\ sent_envelopes (trace s') = [1; 2]%Z
    /\ sent_errors (trace s') = [].
Proof.
  eexists. split.
  - apply (malformed_frames_are_skipped toy_Unmarshal
             (toy_connected 0
                (map read_frame [[Byte.x01]; []; [Byte.x02]] ++ [read_failure "EOF"]))
             0 (mkConnection (Some toy_ws) false) toy_ws (fun e => [SendEnvelope e])
             [[Byte.x01]; []; [Byte.x02]] "EOF" [] 4);
      [reflexivity|reflexivity|reflexivity|reflexivity|simpl; lia].
  - split; vm_compute; reflexivity.
Defined.

Lemma read_deadline_follows_idle_timeout_witness :
  (exists (s' : @state Z string) (w n : nat),
     final_state
       (listenForMessages toy_Unmarshal 5 0 (fun e => tell [SendEnvelope e])
          (toy_connected 30 [read_frame [Byte.x01]; read_failure "EOF"])) = Some s'
     /\ (idleTimeout (toy_connected 30 [read_frame [Byte.x01]; read_failure "EOF"]) <> 0%Z ->
         read_calls (trace s') =
           read_calls (trace (toy_connected 30 [read_frame [Byte.x01]; read_failure "EOF"])) ++
           concat (replicate n [SetReadDeadline w 30; ReadMessage w]))
     /\ (idleTimeout (toy_connected 30 [read_frame [Byte.x01]; read_failure "EOF"]) = 0%Z ->
         read_calls (trace s') =
           read_calls (trace (toy_connected 30 [read_frame [Byte.x01]; read_failure "EOF"])) ++
           replicate n (ReadMessage w)))
  /\
  (exists s' : @state Z string,
     listenForMessages toy_Unmarshal 5 0 (fun e => tell [SendEnvelope e])
       (toy_connected 0 (map read_frame [[Byte.x01]; [Byte.x02]])) = Blocked s'
     /\ read_calls (trace s') = [ReadMessage 1; ReadMessage 1; ReadMessage 1]).
Proof.
  split.
  - eexists.
    edestruct (proj1 (read_deadline_follows_idle_timeout toy_Unmarshal 5
                 (toy_connected 30 [read_frame [Byte.x01]; read_failure "EOF"]) 0
                 (fun e => [SendEnvelope e]) (fun e => eq_refl))) as (w & n & H1 & H2).
    + vm_compute. reflexivity.
    + exists w, n. split; [vm_compute; reflexivity|]. split; [exact H1|exact H2].
  - destruct (proj2 (read_deadline_follows_idle_timeout toy_Unmarshal 5
                 (toy_connected 0 (map read_frame [[Byte.x01]; [Byte.x02]])) 0
                 (fun e => [SendEnvelope e]) (fun e => eq_refl))
                (mkConnection (Some toy_ws) false) toy_ws [[Byte.x01]; [Byte.x02]]
                eq_refl eq_refl eq_refl eq_refl eq_refl ltac:(simpl; lia))
      as (s' & Hrun & Ht).
    exists s'. split; [exact Hrun|exact Ht].
Defined.

Lemma retries_exhausted_after_limit_plus_one_witness :
  exists s',
    tailingLogs toy_Unmarshal toy_GetEventType toy_GetLogMessage toy_LogMessage
                5 "app" "token" 0 (toy_state [dial_refused] []) = Return tt s'
    /\ dialed (trace s') =
         dialed (trace (toy_state [dial_refused] [])) ++
         replicate (Z.to_nat 0 + 1)
           (trafficControllerUrl (toy_state [dial_refused] []) +:+ "/apps/" +:+ "app" +:+ "/stream")
    /\ sent_errors (trace s') =
         sent_errors (trace (toy_state [dial_refused] [])) ++
         map (dial_failure (trafficControllerUrl (toy_state [dial_refused] []))) [dial_refused]
    /\ Forall (fun d => dial_failure (trafficControllerUrl (toy_state [dial_refused] [])) d <> None)
         [dial_refused]
    /\ (exists t, trace s' = t ++ [CloseOutputs; CloseErrors])
    /\ dials s' = [].
Proof.
  apply (retries_exhausted_after_limit_plus_one toy_Unmarshal toy_GetEventType
           toy_GetLogMessage toy_LogMessage 5 "app" "token" 0
           (toy_state [dial_refused] []) [dial_refused] []).
  - unfold maxUint, uintSize. lia.
  - reflexivity.
  - repeat constructor.
  - reflexivity.
  - simpl. lia.
Defined.

Lemma attempt_counter_resets_on_connect_witness :
  (exists s',
     tailingLogs toy_Unmarshal toy_GetEventType toy_GetLogMessage toy_LogMessage
                 10 "app" "token" 5
                 (toy_state ([dial_refused; dial_unauthorized] ++ [dial_ok toy_ws]) [])
       = Blocked s'
     /\ reconnectAttempts s' = 0%Z)
  /\
  (exists s',
     tailingLogs toy_Unmarshal toy_GetEventType toy_GetLogMessage toy_LogMessage
                 10 "app" "token" 5
                 (toy_state ([dial_refused; dial_unauthorized] ++ dial_ok toy_ws :: [dial_refused])
                            [read_failure "EOF"])
       = Blocked s'
     /\ reconnectAttempts s' = 2%Z
     /\ length (sent_errors (trace s')) = 4%nat).
Proof.
  split.
  - destruct (proj1 (attempt_counter_resets_on_connect toy_Unmarshal toy_GetEventType
                toy_GetLogMessage toy_LogMessage 10 "app" "token" 5 2 2
                (toy_state ([dial_refused; dial_unauthorized] ++ [dial_ok toy_ws]) [])
                [dial_refused; dial_unauthorized] [dial_refused] (dial_ok toy_ws) "EOF"
                ltac:(unfold maxUint, uintSize; lia) ltac:(lia) eq_refl
                ltac:(repeat constructor) eq_refl ltac:(simpl; lia))
                eq_refl eq_refl) as (s' & Hrun & Hn & _).
    exists s'. auto.
  - destruct (proj2 (attempt_counter_resets_on_connect toy_Unmarshal toy_GetEventType
                toy_GetLogMessage toy_LogMessage 10 "app" "token" 5 2 2
                (toy_state ([dial_refused; dial_unauthorized] ++ dial_ok toy_ws :: [dial_refused])
                           [read_failure "EOF"])
                [dial_refused; dial_unauthorized] [dial_refused] (dial_ok toy_ws) "EOF"
                ltac:(unfold maxUint, uintSize; lia) ltac:(lia) eq_refl
                ltac:(repeat constructor) eq_refl ltac:(simpl; lia))
                ltac:(lia) ltac:(lia) eq_refl ltac:(repeat constructor) eq_refl eq_refl)
      as (s' & Hrun & Hn & He & _).
    exists s'. split; [exact Hrun|]. split; [exact Hn|]. rewrite He. reflexivity.
Defined.

Lemma unauthorized_dial_is_reported_once_witness :
  establishWebsocketConnection "/apps/app/stream" "bad" (toy_state [dial_unauthorized] []) =
    Return (None, Some (NewUnauthorizedError "invalid token"))
      (set_dials []
         (emit (dial_trace "wss://doppler.example.com" "/apps/app/stream" "bad"
                  dial_unauthorized)
               (toy_state [dial_unauthorized] [])))
  /\
  exists s',
    StreamWithoutReconnect toy_Unmarshal 5 "app" "bad" (toy_state [dial_unauthorized] [])
      = Return tt s'
    /\ sent_errors (trace s') = [Some (NewUnauthorizedError "invalid token")].
Proof.
  pose proof (unauthorized_dial_is_reported_once toy_Unmarshal toy_GetEventType
                toy_GetLogMessage toy_LogMessage 5 "app" "bad"
                (toy_state [dial_unauthorized] []) dial_unauthorized []
                {| Proto := "HTTP/1.1"; Status := "401 Unauthorized"; StatusCode := 401;
                   Header := []; Body := "invalid token" |}
                eq_refl eq_refl eq_refl ltac:(lia)) as [Ha Hb].
  split.
  - apply (proj1 (Ha "/apps/app/stream")).
  - destruct (Hb (StreamWithoutReconnect toy_Unmarshal) ltac:(auto)) as (s' & Hrun & He & _).
    exists s'. split; [exact Hrun|exact He].
Defined.

(** * Further properties of the code *)

(** ** [proxyDial] keeps no connection it does not hand back *)

(** X1. Whatever the resolver, the network and the proxy answer:
    [proxyDial] never returns both a connection and an error, nor neither;
    a connection it returns was never closed; and a proxy connection on
    which the CONNECT request was written is either the one returned or
    closed. *)
Theorem proxyDial_never_leaks
    (env : net_env) (proxy : option (URL -> option URL * option error))
    (network addr : string) (conn : nat) :
  (forall e, snd (proxyDial env proxy network addr) <> Returns (Some conn) (Some e))
  /\ snd (proxyDial env proxy network addr) <> Returns None None
  /\ (snd (proxyDial env proxy network addr) = Returns (Some conn) None ->
      ~ In (NetClose conn) (fst (proxyDial env proxy network addr)))
  /\ (forall host,
        In (WriteConnect conn host) (fst (proxyDial env proxy network addr)) ->
        snd (proxyDial env proxy network addr) <> Returns (Some conn) None ->
        In (NetClose conn) (fst (proxyDial env proxy network addr))).
Proof.
  unfold proxyDial.
  destruct (url_Parse env ("http://" +:+ addr)) as [targetUrl|e0].
  2:{ simpl. repeat split; try congruence; intros; try congruence; intuition. }
  destruct (proxy_resolver env proxy targetUrl) as [[proxyUrl|] [e1|]].
  1,3:(simpl; repeat split; try congruence; intros; try congruence; intuition).
  - destruct (net_Dial env network (Host proxyUrl)) as [proxyConn|e2].
    2:{ simpl. repeat split; try congruence; intros; try congruence.
        destruct H as [H|[]]. discriminate H. }
    destruct (http_ReadResponse env proxyConn) as [resp|e3].
    2:{ simpl. repeat split; try congruence; intros; try congruence.
        destruct H as [H|[H|[H|[]]]]; try discriminate H.
        injection H as -> _. auto. }
    destruct (negb (StatusCode resp =? StatusOK)%Z).
    + destruct (strings_SplitN (Status resp) " " 2 !! 1%nat) as [text|];
        simpl; repeat split; try congruence; intros; try congruence;
        destruct H as [H|[H|[H|[]]]]; try discriminate H;
        injection H as -> _; auto.
    + simpl. repeat split; try congruence; intros.
      * injection H as ->. intros [H|[H|[]]]; discriminate H.
      * destruct H as [H|[H|[]]]; try discriminate H.
        injection H as -> _. congruence.
  - destruct (net_Dial env network addr) as [c|e2]; simpl;
      repeat split; try congruence; intros; try congruence.
    + intros [H1|[]]. discriminate H1.
    + destruct H as [H|[]]. discriminate H.
    + destruct H as [H|[]]. discriminate H.
Qed.

Lemma proxyDial_never_leaks_witness :
  In (NetClose 7) (fst (proxyDial (toy_net "502 Bad Gateway" 502) None "tcp" "host:443")).
Proof.
  apply (proj2 (proj2 (proj2 (proxyDial_never_leaks
           (toy_net "502 Bad Gateway" 502) None "tcp" "host:443" 7)))
           "doppler.example.com:443").
  - vm_compute. auto.
  - vm_compute. discriminate.
Defined.

(** ** More on the registry *)

Section RegistryMore.

Context {Envelope LogMessage : Type}.
Implicit Types (s : @state Envelope LogMessage).

Lemma Close_loop_nil_result (cs : list nat) :
  forall s s',
    conns s = cs ->
    Close_loop cs s = Return None s' ->
    conns s' = [].
Proof.
  induction cs as [|p cs IH]; intros s s' Hc Hrun.
  - simpl in Hrun. injection Hrun as <-. exact Hc.
  - destruct (heap s !! p) as [c|] eqn:Hl.
    + rewrite (Close_loop_cons s p cs c Hl) in Hrun.
      destruct (snd (Conn.close c)); [discriminate Hrun|].
      eapply IH; [|exact Hrun]. reflexivity.
    + simpl in Hrun. unfold bind in Hrun. rewrite (conn_close_invalid s p Hl) in Hrun.
      discriminate Hrun.
Qed.

(** X3. When [Close] returns nil it has emptied the registry, so that
    calling [Close] again at once returns the error "connection does not
    exist" and changes nothing. *)
Theorem Close_twice s s' :
  Close s = Return None s' ->
  conns s' = []
  /\ Close s' = Return (Some (errors_New "connection does not exist")) s'.
Proof.
  intros Hrun. rewrite Close_unfold in Hrun.
  destruct (length (conns s) =? 0)%nat; [discriminate Hrun|].
  assert (Hc : conns s' = []) by (eapply Close_loop_nil_result; [reflexivity|exact Hrun]).
  split; [exact Hc|]. rewrite Close_unfold, Hc. reflexivity.
Qed.

Lemma Close_times_step (n : nat) s :
  Close_times (S (S n)) s =
    match Close s with
    | Return _ s' => Close_times (S n) s'
    | Panic why s' => Panic why s'
    | Blocked s' => Blocked s'
    | OutOfFuel => OutOfFuel
    end.
Proof. reflexivity. Qed.

(** X4. A handle without websocket at the head of the registry stops
    [Close] for good: however often [Close] is called, every call returns
    "connection does not exist", the registry stays as it is, no
    websocket is closed, and the handles behind are left untouched. *)
Theorem Close_stuck_behind_unconnected_handle (n : nat) :
  forall s (p : nat) (rest : list nat) (c : connection),
    conns s = p :: rest ->
    heap s !! p = Some c ->
    ws c = None ->
    exists s',
      Close_times (S n) s = Return (Some (errors_New "connection does not exist")) s'
      /\ conns s' = p :: rest
      /\ trace s' = trace s
      /\ (forall q, q <> p -> heap s' !! q = heap s !! q).
Proof.
  assert (Hone : forall s (p : nat) (rest : list nat) (c : connection),
    conns s = p :: rest -> heap s !! p = Some c -> ws c = None ->
    exists s',
      Close s = Return (Some (errors_New "connection does not exist")) s'
      /\ conns s' = p :: rest
      /\ trace s' = trace s
      /\ (forall q, q <> p -> heap s' !! q = heap s !! q)
      /\ exists c', heap s' !! p = Some c' /\ ws c' = None).
  { intros s p rest c Hc Hl Hw.
    assert (Hclose : Conn.close c =
      ({| ws := None; closed := true |}, [], Some (errors_New "connection does not exist"))).
    { unfold Conn.close. rewrite Hw. reflexivity. }
    eexists. split.
    - rewrite Close_unfold, Hc. cbn [length Nat.eqb].
      rewrite (Close_loop_cons s p rest c Hl), Hclose. reflexivity.
    - cbn [conns heap trace emit set_trace set_heap fst snd map].
      split; [exact Hc|]. split; [apply app_nil_r|]. split.
      + intros q Hq. now apply list_lookup_insert_ne.
      + exists {| ws := None; closed := true |}. split; [|reflexivity].
        apply list_lookup_insert_eq. now apply lookup_lt_Some with c. }
  induction n as [|n IH]; intros s p rest c Hc Hl Hw.
  - destruct (Hone s p rest c Hc Hl Hw) as (s' & Hrun & Hc' & Ht & Hq & _).
    exists s'. auto.
  - destruct (Hone s p rest c Hc Hl Hw) as (s1 & Hrun & Hc1 & Ht1 & Hq1 & c1 & Hl1 & Hw1).
    destruct (IH s1 p rest c1 Hc1 Hl1 Hw1) as (s' & Hrun' & Hc' & Ht' & Hq').
    exists s'. rewrite Close_times_step, Hrun. split; [exact Hrun'|].
    split; [exact Hc'|]. split; [congruence|].
    intros q Hne. rewrite Hq' by exact Hne. now apply Hq1.
Qed.

End RegistryMore.

(** ** More on dialing *)

Section DialingMore.

Context {Envelope LogMessage : Type}.
Variable Unmarshal : list Byte.byte -> option Envelope.
Implicit Types (s : @state Envelope LogMessage).

Lemma callbacks_run_app (t u : list (@event Envelope LogMessage)) :
  callbacks_run (t ++ u) = callbacks_run t ++ callbacks_run u.
Proof. unfold callbacks_run. apply omap_app. Qed.

Lemma callbacks_run_dial_trace (tc path authToken : string) (d : dial_result) :
  callbacks_run (@dial_trace Envelope LogMessage tc path authToken d) = [].
Proof. unfold dial_trace. destruct (d_resp d); reflexivity. Qed.

Lemma callbacks_run_tags (l : list nat) :
  callbacks_run (map (@ConnectCallback Envelope LogMessage) l) = l.
Proof.
  induction l as [|x l IH]; [reflexivity|].
  change (x :: callbacks_run (map (@ConnectCallback Envelope LogMessage) l) = x :: l).
  now rewrite IH.
Qed.

(** What [establishWebsocketConnection] does for any answer of the
    dialer: the trace of the dial, then the connect callback when the
    dialer reports no error and the response is not a 401. *)
Lemma establish_run s (path authToken : string) (d : dial_result)
      (rest : list dial_result) :
  dials s = d :: rest ->
  exists r s1,
    establishWebsocketConnection path authToken s = Return r s1
    /\ snd r = (if is_nil (d_err d) && negb (unauthorized d) then None
                else dial_failure (trafficControllerUrl s) d)
    /\ fst r = (if unauthorized d || is_nil (d_err d) then d_ws d else None)
    /\ trace s1 =
         trace s ++ dial_trace (trafficControllerUrl s) path authToken d ++
         (if is_nil (d_err d) && negb (unauthorized d)
          then map ConnectCallback
                 match callback s with Some cb => callback_tags cb | None => [] end
          else [])
    /\ dials s1 = rest
    /\ conns s1 = conns s /\ heap s1 = heap s /\ reads s1 = reads s
    /\ callback s1 = callback s /\ idleTimeout s1 = idleTimeout s
    /\ trafficControllerUrl s1 = trafficControllerUrl s.
Proof.
  intros Hd. unfold unauthorized, dial_failure, dial_trace.
  unfold establishWebsocketConnection, after_dial, dialer_Dial, tell, modify.
  unfold bind, get, ret. simpl. rewrite Hd.
  destruct d as [dw [resp|] [err|]]; simpl;
    try destruct (StatusCode resp =? StatusUnauthorized)%Z; simpl;
    try (destruct (callback s) as [cb|] eqn:Hcb; simpl; [rewrite call_run|]);
    eexists; eexists; (split; [reflexivity|]); simpl;
    rewrite <- ?app_assoc, ?app_nil_r, ?Hcb; simpl;
    try (destruct cb; simpl); repeat split; auto;
    rewrite <- ?app_assoc; reflexivity.
Qed.

(** X5. A dial that the dialer reports as failed, the response not being
    a 401: the result is the nil connection, even when the dialer gave one,
    and an error whose text is built from the cause and the address of the
    traffic controller; the attempt counter and the connect callback are
    left alone. *)
Theorem dial_error_names_the_traffic_controller
      s (path authToken : string) (d : dial_result) (rest : list dial_result)
      (cause : string) :
  dials s = d :: rest ->
  d_err d = Some cause ->
  unauthorized d = false ->
  exists s1,
    establishWebsocketConnection path authToken s =
      Return (None,
              Some (errors_New
                      ("Error dialing traffic controller server: " +:+ cause +:+ "." +:+
                       newline +:+
                       "Please ask your Cloud Foundry Operator to check the platform configuration (traffic controller is "
                       +:+ trafficControllerUrl s +:+ ").")))
             s1
    /\ callbacks_run (trace s1) = callbacks_run (trace s)
    /\ reconnectAttempts s1 = reconnectAttempts s
    /\ dials s1 = rest.
Proof.
  intros Hd He Hu. unfold unauthorized in Hu.
  unfold establishWebsocketConnection, after_dial, dialer_Dial, tell, modify.
  unfold bind, get, ret. simpl. rewrite Hd.
  destruct d as [dw [resp|] [err|]]; simpl in *; try discriminate He;
    injection He as ->; rewrite ?Hu; simpl;
    (eexists; split; [reflexivity|]); simpl;
    rewrite !callbacks_run_app; simpl; rewrite ?app_nil_r; auto.
Qed.

(** X6. The connect callback runs exactly when the dialer reports no
    error and the response is not a 401: then every external callback
    wrapped in [c.callback] runs once, after the dial; otherwise none
    runs. *)
Theorem connect_callback_runs_on_success_only
      s (path authToken : string) (d : dial_result) (rest : list dial_result) :
  dials s = d :: rest ->
  exists r s1,
    establishWebsocketConnection path authToken s = Return r s1
    /\ callbacks_run (trace s1) =
         callbacks_run (trace s) ++
         (if is_nil (d_err d) && negb (unauthorized d)
          then match callback s with Some cb => callback_tags cb | None => [] end
          else []).
Proof.
  intros Hd.
  destruct (establish_run s path authToken d rest Hd) as (r & s1 & Hrun & _ & _ & Ht & _).
  exists r, s1. split; [exact Hrun|].
  rewrite Ht, !callbacks_run_app, callbacks_run_dial_trace.
  destruct (is_nil (d_err d) && negb (unauthorized d)); simpl.
  - now rewrite callbacks_run_tags.
  - reflexivity.
Qed.

End DialingMore.

(** ** More on the read loop and the streams *)

Section StreamsMore.

Context {Envelope LogMessage : Type}.
Variable Unmarshal : list Byte.byte -> option Envelope.
Variable GetEventType : Envelope -> Z.
Variable GetLogMessage : Envelope -> option LogMessage.
Variable Envelope_LogMessage : Z.
Implicit Types (s : @state Envelope LogMessage).

Ltac equal_states :=
  apply state_ext; simpl; rewrite <- ?app_assoc, ?app_nil_r; try reflexivity.

(** X7. On a handle that is already closed, the read loop makes one pass
    and returns nil: whatever the read gives, an error or a frame that
    decodes, nothing goes to the callback. *)
Theorem listen_on_closed_handle_returns_nil
      (fuel : nat) s (conn : nat) (c : connection) (w : wsConn)
      (cb : Envelope -> M unit) (r : read_event) (rest : list read_event) :
  heap s !! conn = Some c ->
  ws c = Some w ->
  closed c = true ->
  reads s = r :: rest ->
  terminate r = false ->
  listenForMessages Unmarshal (S fuel) conn cb s =
    Return None
      (set_reads rest (emit (map Ws (pass_calls (idleTimeout s) (ws_id w))) s)).
Proof.
  intros Hl Hw Hc Hr Ht.
  unfold listenForMessages, bind, conn_websocket, with_conn. rewrite Hl.
  unfold ret, Conn.websocket. rewrite Hw, listen_loop_step.
  unfold listen_pass, pass_calls, deadline_calls, ws_SetReadDeadline, ws_ReadMessage, on_ws,
    tell, modify, conn_Closed, with_conn.
  unfold bind, get, ret.
  destruct (idleTimeout s =? 0)%Z; simpl; rewrite Hr, Ht; simpl; rewrite Hl;
    unfold Conn.Closed; rewrite Hc; f_equal; equal_states.
Qed.

(** X8. A stream whose handle is closed when an attempt starts stops
    without a word: [retryAction] returns at once, nothing is dialed,
    nothing is sent on the error channel, and the connect callback is the
    one that was there before. *)
Theorem closed_stream_stops_silently
      (fuel afuel conn : nat) (path authToken : string) (cb : Envelope -> M unit)
      (L : Z) s (c : connection) :
  heap s !! conn = Some c ->
  closed c = true ->
  (0 <= L)%Z ->
  exists s',
    retryAction (S fuel) (action Unmarshal afuel conn path authToken cb) L s = Return tt s'
    /\ trace s' = trace s
    /\ dials s' = dials s
    /\ callback s' = callback s
    /\ heap s' = heap s /\ conns s' = conns s.
Proof.
  intros Hl Hc HL. rewrite retryAction_run, retry_loop_step.
  cbn [reconnectAttempts set_callback set_reconnectAttempts].
  replace (0 <=? L)%Z with true by (symmetry; apply Z.leb_le; lia).
  unfold action, bind, conn_Closed, with_conn.
  cbn [heap set_callback set_reconnectAttempts]. rewrite Hl.
  unfold ret, Conn.Closed. rewrite Hc.
  eexists. split; [reflexivity|]. simpl. auto.
Qed.

(** The read loop over frames, for a callback that only writes to the
    trace. *)
Lemma listen_loop_frames_sending (conn : nat) (c : connection) (w : wsConn)
      (cb : Envelope -> M unit) (out : Envelope -> list event)
      (msg : string) (rest : list read_event) (frames : list (list Byte.byte)) :
  (forall e s, cb e s = Return tt (emit (out e) s)) ->
  forall (fuel : nat) s,
    heap s !! conn = Some c ->
    closed c = false ->
    reads s = map read_frame frames ++ read_failure msg :: rest ->
    (length frames < fuel)%nat ->
    listen_loop Unmarshal fuel conn (Some w) cb s =
      Return (Some (LibraryError msg))
        (set_reads rest
           (emit (flat_map
                    (fun data =>
                       map Ws (pass_calls (idleTimeout s) (ws_id w)) ++
                       match Unmarshal data with Some e => out e | None => [] end)
                    frames
                  ++ map Ws (pass_calls (idleTimeout s) (ws_id w))) s)).
Proof.
  intros Hcb.
  induction frames as [|data frames IH]; intros fuel s Hl Hc Hr Hf;
    (destruct fuel as [|fuel]; [simpl in Hf; lia|]); rewrite listen_loop_step.
  - rewrite (listen_pass_failure Unmarshal s conn c w _ msg rest Hl Hc Hr). reflexivity.
  - assert (Hpass :
      listen_pass Unmarshal conn (Some w) cb s =
        Return None
          (set_reads (map read_frame frames ++ read_failure msg :: rest)
             (emit (map Ws (pass_calls (idleTimeout s) (ws_id w)) ++
                    match Unmarshal data with Some e => out e | None => [] end) s))).
    { unfold listen_pass, pass_calls, deadline_calls, ws_SetReadDeadline, ws_ReadMessage,
        on_ws, tell, modify, conn_Closed, with_conn.
      unfold bind, get, ret.
      destruct (idleTimeout s =? 0)%Z; simpl; rewrite Hr; simpl; rewrite Hl;
        unfold Conn.Closed; rewrite Hc; simpl;
        (destruct (Unmarshal data); [rewrite Hcb|]); f_equal; equal_states. }
    rewrite Hpass, IH; [|exact Hl|exact Hc|reflexivity|simpl in Hf; lia].
    f_equal. equal_states.
Qed.

(** One stream without reconnection: the dial succeeds, frames arrive,
    then a read fails. *)
Lemma retryAction_one_connection
      (fuel conn : nat) (path authToken : string)
      (cb : Envelope -> M unit) (out : Envelope -> list event) s
      (d : dial_result) (rest : list dial_result) (w : wsConn)
      (frames : list (list Byte.byte)) (msg : string) (rs : list read_event) :
  (forall e s, cb e s = Return tt (emit (out e) s)) ->
  heap s !! conn = Some (mkConnection None false) ->
  dials s = d :: rest ->
  dial_succeeds d = true ->
  d_ws d = Some w ->
  reads s = map read_frame frames ++ read_failure msg :: rs ->
  (length frames < fuel)%nat ->
  (1 < fuel)%nat ->
  exists s',
    retryAction fuel (action Unmarshal fuel conn path authToken cb) 0 s = Return tt s'
    /\ trace s' =
         trace s ++ dial_trace (trafficControllerUrl s) path authToken d ++
         map ConnectCallback
           match callback s with Some f => callback_tags f | None => [] end ++
         flat_map
           (fun data =>
              map Ws (pass_calls (idleTimeout s) (ws_id w)) ++
              match Unmarshal data with Some e => out e | None => [] end) frames ++
         map Ws (pass_calls (idleTimeout s) (ws_id w)) ++
         [SendError (Some (LibraryError msg)); Sleep]
    /\ callback s' = callback s
    /\ reads s' = rs
    /\ dials s' = rest
    /\ heap s' !! conn = Some (mkConnection (Some w) false).
Proof.
  intros Hcb Hl Hd Hs Hw Hr Hf Hfuel.
  destruct fuel as [|[|fuel]]; [lia|lia|].
  rewrite retryAction_run, retry_loop_step.
  cbn [reconnectAttempts set_callback set_reconnectAttempts]. cbn [Z.leb Z.compare].
  rewrite (action_connected Unmarshal (S (S fuel)) conn path authToken cb
             (set_callback (Some (ResetAttempts (callback s))) (set_reconnectAttempts 0 s))
             (mkConnection None false) d rest (callback s) w Hl eq_refl Hd Hs Hw eq_refl).
  erewrite (listen_loop_frames_sending conn (mkConnection (Some w) false) w cb out msg rs
              frames Hcb (S (S fuel))).
  - rewrite retry_loop_exhausted.
    + eexists. split; [reflexivity|].
      cbn [trace callback reads dials heap emit set_trace set_reads set_heap
           set_reconnectAttempts set_dials set_callback trafficControllerUrl idleTimeout
           callback_tags].
      rewrite <- !app_assoc.
      split; [reflexivity|]. split; [reflexivity|]. split; [reflexivity|].
      split; [reflexivity|].
      apply list_lookup_insert_eq. now apply lookup_lt_Some with (mkConnection None false).
    + cbn [reconnectAttempts emit set_trace set_reads set_heap set_reconnectAttempts
           set_dials set_callback]. vm_compute. reflexivity.
  - cbn [heap set_heap].
    apply list_lookup_insert_eq. now apply lookup_lt_Some with (mkConnection None false).
  - reflexivity.
  - exact Hr.
  - exact Hf.
Qed.

Lemma omap_flat_map {A B C : Type} (f : B -> option C) (g : A -> list B) (l : list A) :
  omap f (flat_map g l) = flat_map (fun x => omap f (g x)) l.
Proof.
  induction l as [|x l IH]; [reflexivity|].
  cbn [flat_map]. now rewrite omap_app, IH.
Qed.

Lemma omap_Ws {C : Type} (f : @event Envelope LogMessage -> option C) (l : list ws_call) :
  (forall c, f (Ws c) = None) -> omap f (map Ws l) = [].
Proof.
  intros H. induction l as [|x l IH]; [reflexivity|].
  change (match f (Ws x) with
          | Some y => y :: omap f (map Ws l)
          | None => omap f (map Ws l)
          end = []).
  now rewrite H, IH.
Qed.

Lemma omap_ConnectCallback {C : Type} (f : @event Envelope LogMessage -> option C)
      (l : list nat) :
  (forall n, f (ConnectCallback n) = None) -> omap f (map ConnectCallback l) = [].
Proof.
  intros H. induction l as [|x l IH]; [reflexivity|].
  change (match f (ConnectCallback x) with
          | Some y => y :: omap f (map ConnectCallback l)
          | None => omap f (map ConnectCallback l)
          end = []).
  now rewrite H, IH.
Qed.

Lemma omap_dial_trace {C : Type} (f : @event Envelope LogMessage -> option C)
      (tc path authToken : string) (d : dial_result) :
  (forall a b, f (DebugPrint a b) = None) ->
  (forall a b, f (Dial a b) = None) ->
  omap f (dial_trace tc path authToken d) = [].
Proof.
  intros H1 H2. unfold dial_trace. destruct (d_resp d); simpl; now rewrite ?H1, ?H2.
Qed.

Lemma flat_map_omap_frames {C : Type} (h : list Byte.byte -> option C)
      (frames : list (list Byte.byte)) :
  flat_map (fun data => match h data with Some x => [x] | None => [] end) frames
  = omap h frames.
Proof.
  induction frames as [|data frames IH]; [reflexivity|].
  change (match h data with Some x => [x] | None => [] end ++
          flat_map (fun data => match h data with Some x => [x] | None => [] end) frames
          = match h data with
            | Some y => y :: omap h frames
            | None => omap h frames
            end).
  rewrite IH. destruct (h data); reflexivity.
Qed.

(** X9. [TailingLogsWithoutReconnect], when the dial succeeds, frames
    arrive and then a read fails: of the frames that decode, those of
    type LogMessage have their log message sent on the output channel, in
    wire order, and nothing else is sent there; the one read error goes to
    the error channel and both channels are closed. *)
Theorem TailingLogs_forwards_log_messages_only
      (fuel : nat) (appGuid authToken : string) s
      (d : dial_result) (rest : list dial_result)
      (frames : list (list Byte.byte)) (msg : string) (rs : list read_event) :
  dials s = d :: rest ->
  dial_succeeds d = true ->
  reads s = map read_frame frames ++ read_failure msg :: rs ->
  (length frames < fuel)%nat ->
  (1 < fuel)%nat ->
  exists s',
    TailingLogsWithoutReconnect Unmarshal GetEventType GetLogMessage Envelope_LogMessage
      fuel appGuid authToken s = Return tt s'
    /\ sent_logs (trace s') =
         sent_logs (trace s) ++
         omap (fun data =>
                 match Unmarshal data with
                 | Some e =>
                     if (GetEventType e =? Envelope_LogMessage)%Z
                     then Some (GetLogMessage e) else None
                 | None => None
                 end) frames
    /\ sent_envelopes (trace s') = sent_envelopes (trace s)
    /\ sent_errors (trace s') = sent_errors (trace s) ++ [Some (LibraryError msg)]
    /\ exists t, trace s' = t ++ [CloseOutputs; CloseErrors].
Proof.
  intros Hd Hs Hr Hf Hfuel.
  destruct (dial_succeeds_inv d Hs) as (_ & _ & w & Hw).
  unfold TailingLogsWithoutReconnect.
  rewrite tailingLogs_run, streamAppData_run.
  edestruct (retryAction_one_connection fuel (length (heap s))
               ("/apps/" +:+ appGuid +:+ "/stream") authToken
               (fun env : Envelope =>
                  if (GetEventType env =? Envelope_LogMessage)%Z
                  then @tell Envelope LogMessage [SendLogMessage (GetLogMessage env)]
                  else ret tt)
               (fun env : Envelope =>
                  if (GetEventType env =? Envelope_LogMessage)%Z
                  then [SendLogMessage (GetLogMessage env)] else [])
               (set_conns (conns s ++ [length (heap s)])
                  (set_heap (heap s ++ [mkConnection None false]) s))
               d rest w frames msg rs) as (s' & Hrun & Ht & _).
  - intros e s0. destruct (GetEventType e =? Envelope_LogMessage)%Z; [reflexivity|].
    unfold ret. now rewrite emit_nil.
  - apply new_handle_lookup.
  - exact Hd.
  - exact Hs.
  - exact Hw.
  - exact Hr.
  - exact Hf.
  - exact Hfuel.
  - rewrite Hrun. eexists. split; [reflexivity|].
    cbn [trace emit set_trace]. rewrite Ht.
    cbn [trace callback idleTimeout trafficControllerUrl set_conns set_heap].
    unfold sent_logs, sent_envelopes, sent_errors.
    repeat rewrite ?omap_app, ?omap_flat_map.
    rewrite !omap_dial_trace, !omap_ConnectCallback, !omap_Ws by reflexivity.
    cbn [omap app]. rewrite !app_nil_r.
    split; [|split; [|split]].
    + f_equal. rewrite <- flat_map_omap_frames. apply flat_map_ext. intros data.
      rewrite omap_app, omap_Ws by reflexivity.
      destruct (Unmarshal data) as [e|]; [|reflexivity].
      destruct (GetEventType e =? Envelope_LogMessage)%Z; reflexivity.
    + replace (flat_map _ frames) with (@nil Envelope); [now rewrite app_nil_r|].
      clear. induction frames as [|data frames IH]; [reflexivity|].
      cbn [flat_map]. rewrite omap_app, omap_Ws by reflexivity.
      cbn [app]. rewrite <- IH.
      destruct (Unmarshal data) as [e|]; [|reflexivity].
      destruct (GetEventType e =? Envelope_LogMessage)%Z; reflexivity.
    + f_equal.
      replace (flat_map _ frames) with (@nil (option error)); [reflexivity|].
      clear. induction frames as [|data frames IH]; [reflexivity|].
      cbn [flat_map]. rewrite omap_app, omap_Ws by reflexivity.
      cbn [app]. rewrite <- IH.
      destruct (Unmarshal data) as [e|]; [|reflexivity].
      destruct (GetEventType e =? Envelope_LogMessage)%Z; reflexivity.
    + eexists. rewrite <- app_assoc. reflexivity.
Qed.

(** X10. [StreamWithoutReconnect] and [FirehoseWithoutReconnect], when
    the dial succeeds, frames arrive and then a read fails: every frame
    that decodes is sent on the output channel, whatever its type, in wire
    order; the frames that do not decode are left out; the one read error
    goes to the error channel and both channels are closed. *)
Theorem Stream_forwards_every_envelope_in_wire_order
      (fuel : nat) (name authToken : string) s
      (d : dial_result) (rest : list dial_result)
      (frames : list (list Byte.byte)) (msg : string) (rs : list read_event)
      (run : nat -> string -> string -> M unit) :
  run = StreamWithoutReconnect Unmarshal \/ run = FirehoseWithoutReconnect Unmarshal ->
  dials s = d :: rest ->
  dial_succeeds d = true ->
  reads s = map read_frame frames ++ read_failure msg :: rs ->
  (length frames < fuel)%nat ->
  (1 < fuel)%nat ->
  exists s',
    run fuel name authToken s = Return tt s'
    /\ sent_envelopes (trace s') = sent_envelopes (trace s) ++ omap Unmarshal frames
    /\ sent_errors (trace s') = sent_errors (trace s) ++ [Some (LibraryError msg)]
    /\ exists t, trace s' = t ++ [CloseOutputs; CloseErrors].
Proof.
  intros Hrun0 Hd Hs Hr Hf Hfuel.
  destruct (dial_succeeds_inv d Hs) as (_ & _ & w & Hw).
  assert (Hone : forall path,
    exists s',
      retryAction fuel
        (action Unmarshal fuel (length (heap s)) path authToken
           (fun env => tell [SendEnvelope env])) 0
        (set_conns (conns s ++ [length (heap s)])
           (set_heap (heap s ++ [mkConnection None false]) s)) = Return tt s'
      /\ sent_envelopes (trace s') = sent_envelopes (trace s) ++ omap Unmarshal frames
      /\ sent_errors (trace s') = sent_errors (trace s) ++ [Some (LibraryError msg)]).
  { intros path.
    edestruct (retryAction_one_connection fuel (length (heap s)) path authToken
                 (fun env : Envelope => @tell Envelope LogMessage [SendEnvelope env])
                 (fun env : Envelope => [SendEnvelope env])
                 (set_conns (conns s ++ [length (heap s)])
                    (set_heap (heap s ++ [mkConnection None false]) s))
                 d rest w frames msg rs) as (s' & Hrun & Ht & _);
      [reflexivity|apply new_handle_lookup|exact Hd|exact Hs|exact Hw|exact Hr|exact Hf
      |exact Hfuel|].
    exists s'. split; [exact Hrun|]. rewrite Ht.
    cbn [trace callback idleTimeout trafficControllerUrl set_conns set_heap].
    unfold sent_envelopes, sent_errors.
    repeat rewrite ?omap_app, ?omap_flat_map.
    rewrite !omap_dial_trace, !omap_ConnectCallback, !omap_Ws by reflexivity.
    cbn [app]. split.
    - replace (omap _ [SendError (Some (LibraryError msg)); Sleep]) with (@nil Envelope)
        by reflexivity.
      rewrite !app_nil_r. f_equal.
      rewrite <- flat_map_omap_frames. apply flat_map_ext. intros data.
      rewrite omap_app, omap_Ws by reflexivity.
      destruct (Unmarshal data); reflexivity.
    - replace (flat_map _ frames) with (@nil (option error)); [reflexivity|].
      clear. induction frames as [|data frames IH]; [reflexivity|].
      cbn [flat_map]. rewrite omap_app, omap_Ws by reflexivity.
      cbn [app]. rewrite <- IH. destruct (Unmarshal data); reflexivity. }
  destruct Hrun0 as [-> | ->].
  - unfold StreamWithoutReconnect. rewrite runStream_run, streamAppData_run.
    destruct (Hone ("/apps/" +:+ name +:+ "/stream")) as (s' & -> & He & Hx).
    eexists. split; [reflexivity|]. cbn [trace emit set_trace].
    unfold sent_envelopes, sent_errors in *. rewrite !omap_app, He, Hx.
    simpl. rewrite !app_nil_r. split; [reflexivity|]. split; [reflexivity|].
    eexists. rewrite <- app_assoc. reflexivity.
  - unfold FirehoseWithoutReconnect. rewrite firehose_run.
    destruct (Hone ("/firehose/" +:+ name)) as (s' & -> & He & Hx).
    eexists. split; [reflexivity|]. cbn [trace emit set_trace].
    unfold sent_envelopes, sent_errors in *. rewrite !omap_app, He, Hx.
    simpl. rewrite !app_nil_r. split; [reflexivity|]. split; [reflexivity|].
    eexists. rewrite <- app_assoc. reflexivity.
Qed.

(** The retry controller over failing dials leaves the heap and the
    registry as they are. *)
Lemma retryAction_failures_registry (conn : nat) (c : connection) (path authToken : string)
      (cb : Envelope -> M unit) (L : Z) (ds rest : list dial_result) s (fuel afuel : nat) :
  heap s !! conn = Some c ->
  closed c = false ->
  dials s = ds ++ rest ->
  Forall (fun d => dial_fails d = true) ds ->
  (0 <= L < maxUint)%Z ->
  length ds = (Z.to_nat L + 1)%nat ->
  (length ds < fuel)%nat ->
  exists s',
    retryAction fuel (action Unmarshal afuel conn path authToken cb) L s = Return tt s'
    /\ trace s' =
         trace s ++
         flat_map (fun d =>
                     dial_trace (trafficControllerUrl s) path authToken d ++
                     [SendError (dial_failure (trafficControllerUrl s) d); Sleep]) ds
    /\ dials s' = rest
    /\ callback s' = callback s
    /\ heap s' = heap s
    /\ conns s' = conns s.
Proof.
  intros Hl Hc Hd Hf HL Hlen Hfuel.
  set (s1 := set_callback (Some (ResetAttempts (callback s))) (set_reconnectAttempts 0 s)).
  assert (Hfu : (fuel = length ds + S (fuel - length ds - 1))%nat) by lia.
  pose proof (retry_loop_failures Unmarshal conn c path authToken cb L rest ds s1
                (S (fuel - length ds - 1)) afuel) as Hrun.
  rewrite <- Hfu in Hrun.
  rewrite retry_loop_exhausted in Hrun by (simpl; lia).
  eexists. split; [|split; [|split; [|split; [|split]]]].
  - rewrite retryAction_run. fold s1.
    rewrite Hrun; [reflexivity|exact Hl|exact Hc|exact Hd|exact Hf| | |]; simpl; lia.
  - reflexivity.
  - reflexivity.
  - reflexivity.
  - reflexivity.
  - reflexivity.
Qed.

(** X11. [firehose] with a retry limit [L] below the largest [uint] and
    [L+1] failing dials: exactly [L+1] dials of the firehose address,
    exactly their [L+1] errors on the error channel, then both channels
    are closed; the connect callback is the one that was there before; and
    the handle the request registered stays in the registry, open and
    without websocket. [Firehose] is the case [L = 5]. *)
Theorem firehose_gives_up_after_limit_plus_one
      (fuel : nat) (subID authToken : string) (L : Z) s
      (ds rest : list dial_result) :
  (0 <= L < maxUint)%Z ->
  length ds = (Z.to_nat L + 1)%nat ->
  Forall (fun d => dial_fails d = true) ds ->
  dials s = ds ++ rest ->
  (Z.to_nat L + 1 < fuel)%nat ->
  exists s',
    firehose Unmarshal fuel subID authToken L s = Return tt s'
    /\ dialed (trace s') =
         dialed (trace s) ++
         replicate (Z.to_nat L + 1) (trafficControllerUrl s +:+ "/firehose/" +:+ subID)
    /\ sent_errors (trace s') =
         sent_errors (trace s) ++ map (dial_failure (trafficControllerUrl s)) ds
    /\ (exists t, trace s' = t ++ [CloseOutputs; CloseErrors])
    /\ callback s' = callback s
    /\ conns s' = conns s ++ [length (heap s)]
    /\ heap s' = heap s ++ [mkConnection None false]
    /\ (L = 5%Z -> Firehose Unmarshal fuel subID authToken s = Return tt s').
Proof.
  intros HL Hlen Hf Hd Hfuel.
  rewrite firehose_run.
  edestruct (retryAction_failures_registry (length (heap s)) (mkConnection None false)
               ("/firehose/" +:+ subID) authToken
               (fun env : Envelope => @tell Envelope LogMessage [SendEnvelope env])
               L ds rest
               (set_conns (conns s ++ [length (heap s)])
                  (set_heap (heap s ++ [mkConnection None false]) s)) fuel fuel)
    as (s' & Hrun & Ht & Hds & Hcb & Hh & Hcs);
    [apply new_handle_lookup|reflexivity|exact Hd|exact Hf|exact HL|exact Hlen|lia|].
  cbn [trace trafficControllerUrl callback heap conns set_conns set_heap] in Ht, Hcb, Hh, Hcs.
  rewrite Hrun. eexists. split; [reflexivity|].
  cbn [trace callback heap conns emit set_trace]. rewrite Ht.
  split; [|split; [|split; [|split; [|split; [|split]]]]].
  - rewrite !dialed_app, dialed_failures, Hlen. simpl. now rewrite !app_nil_r.
  - rewrite !sent_errors_app, sent_errors_failures. simpl. now rewrite !app_nil_r.
  - eexists. rewrite <- app_assoc. reflexivity.
  - exact Hcb.
  - exact Hcs.
  - exact Hh.
  - intros ->. unfold Firehose. rewrite firehose_run, Hrun. reflexivity.
Qed.

End StreamsMore.

Section StreamFunction.

Context {Envelope LogMessage : Type}.
Variable Unmarshal : list Byte.byte -> option Envelope.
Implicit Types (s : @state Envelope LogMessage).

(** X12. [stream]: when the dial fails, the error comes back and no
    handle is registered; when the dial succeeds, one handle is
    registered, holding the websocket from the start, and the read loop
    runs on it (here it waits for a first frame). *)
Theorem stream_registers_connected_handle
      (fuel : nat) (path authToken : string) (cb : Envelope -> M unit) s
      (d : dial_result) (rest : list dial_result) :
  dials s = d :: rest ->
  (dial_fails d = true ->
   exists s',
     stream Unmarshal fuel path authToken cb s =
       Return (dial_failure (trafficControllerUrl s) d) s'
     /\ dial_failure (trafficControllerUrl s) d <> None
     /\ conns s' = conns s /\ heap s' = heap s)
  /\
  (forall w,
     dial_succeeds d = true -> d_ws d = Some w -> reads s = [] ->
     exists s',
       stream Unmarshal (S fuel) path authToken cb s = Blocked s'
       /\ conns s' = conns s ++ [length (heap s)]
       /\ heap s' = heap s ++ [mkConnection (Some w) false]
       /\ ws_calls (trace s') =
            ws_calls (trace s) ++ pass_calls (idleTimeout s) (ws_id w)).
Proof.
  intros Hd.
  destruct (establish_run s path authToken d rest Hd)
    as (r & s1 & Hrun & Hsnd & Hfst & Ht & Hds & Hcs & Hh & Hr & _ & Hi & _).
  split.
  - intros Hf. unfold stream, bind. rewrite Hrun.
    assert (He : snd r = dial_failure (trafficControllerUrl s) d).
    { rewrite Hsnd. unfold dial_fails in Hf.
      destruct (is_nil (d_err d)) eqn:E1, (unauthorized d) eqn:E2; simpl in *;
        try reflexivity; discriminate. }
    pose proof (dial_failure_is_error (trafficControllerUrl s) d Hf) as Hne.
    rewrite He. destruct (dial_failure (trafficControllerUrl s) d) as [e|]; [|congruence].
    exists s1. auto.
  - intros w Hs Hw Hrd.
    destruct (dial_succeeds_inv d Hs) as (Hu & He & _).
    rewrite He, Hu in Hsnd, Hfst, Ht. simpl in Hsnd, Hfst.
    cbn [is_nil andb negb] in Ht.
    unfold stream, bind. rewrite Hrun, Hsnd, Hfst, Hw.
    set (s2 := set_conns (conns s1 ++ [length (heap s1)])
                 (set_heap (heap s1 ++ [mkConnection (Some w) false]) s1)).
    assert (Hn : newConn (Some w) s1 = Return (length (heap s1)) s2) by reflexivity.
    assert (Hlis :
      listenForMessages Unmarshal (S fuel) (length (heap s1)) cb s2 =
        Blocked (emit (map Ws (pass_calls (idleTimeout s2) (ws_id w))) s2)).
    { unfold listenForMessages, bind, conn_websocket, with_conn.
      replace (heap s2 !! length (heap s1)) with (Some (mkConnection (Some w) false))
        by (symmetry; apply new_handle_lookup).
      unfold ret, Conn.websocket. cbn [ws].
      rewrite listen_loop_step, (listen_pass_waits Unmarshal); [reflexivity|].
      exact (eq_trans Hr Hrd). }
    rewrite Hn, Hlis.
    eexists. split; [reflexivity|].
    unfold s2. cbn [conns heap trace idleTimeout emit set_trace set_conns set_heap].
    rewrite Hcs, Hh, Hi, Ht. split; [reflexivity|]. split; [reflexivity|].
    unfold ws_calls. rewrite !omap_app.
    rewrite (omap_dial_trace _ _ _ _ d) by reflexivity.
    rewrite omap_ConnectCallback by reflexivity.
    rewrite app_nil_r. cbn [app]. f_equal.
    apply ws_calls_Ws.
Qed.

End StreamFunction.

(** ** The debug text *)

Lemma append_empty_r (a : string) : a +:+ "" = a.
Proof. induction a as [|x a IH]; [reflexivity|]. rewrite append_cons. now rewrite IH. Qed.

Lemma headersString_from (header : list (string * list string)) :
  forall acc : string,
    fold_left
      (fun result nv => result +:+ fst nv +:+ ": " +:+ String.concat ", " (snd nv) +:+ newline)
      header acc
    = acc +:+ headersString header.
Proof.
  unfold headersString.
  induction header as [|nv header IH]; intros acc.
  - simpl. now rewrite append_empty_r.
  - cbn [fold_left]. rewrite IH. rewrite (IH ("" +:+ _)).
    rewrite append_empty. now rewrite append_assoc.
Qed.

(** X13. [headersString] writes the headers one after the other: the
    text for a list of headers followed by another is the text of the
    first followed by the text of the second, and the text of one header
    is its name, a colon, its values separated by commas, and a newline. *)
Theorem headersString_app (h1 h2 : list (string * list string)) :
  headersString (h1 ++ h2) = headersString h1 +:+ headersString h2
  /\ forall (name : string) (values : list string),
       headersString [(name, values)] =
         name +:+ ": " +:+ String.concat ", " values +:+ newline.
Proof.
  split.
  - unfold headersString at 1. rewrite fold_left_app.
    fold (headersString h1). apply headersString_from.
  - intros name values. reflexivity.
Qed.

Section GivingUp.

Context {Envelope LogMessage : Type}.
Variable Unmarshal : list Byte.byte -> option Envelope.
Implicit Types (s : @state Envelope LogMessage).

(** X14. A stream that gave up leaves its handle behind: on a session
    with an empty registry, after [firehose] has used up its retries and
    closed its channels, [Close] does not find the registry empty; it
    marks the handle closed, returns "connection does not exist" and
    leaves the handle in the registry. *)
Theorem Close_after_giving_up
      (fuel : nat) (subID authToken : string) (L : Z) s
      (ds rest : list dial_result) :
  conns s = [] ->
  (0 <= L < maxUint)%Z ->
  length ds = (Z.to_nat L + 1)%nat ->
  Forall (fun d => dial_fails d = true) ds ->
  dials s = ds ++ rest ->
  (Z.to_nat L + 1 < fuel)%nat ->
  exists s' s'',
    firehose Unmarshal fuel subID authToken L s = Return tt s'
    /\ Close s' = Return (Some (errors_New "connection does not exist")) s''
    /\ conns s'' = [length (heap s)]
    /\ is_closed (heap s'') (length (heap s)) = true
    /\ ws_calls (trace s'') = ws_calls (trace s).
Proof.
  intros Hc0 HL Hlen Hf Hd Hfuel.
  rewrite firehose_run.
  edestruct (retryAction_failures_registry Unmarshal (length (heap s))
               (mkConnection None false)
               ("/firehose/" +:+ subID) authToken
               (fun env : Envelope => @tell Envelope LogMessage [SendEnvelope env])
               L ds rest
               (set_conns (conns s ++ [length (heap s)])
                  (set_heap (heap s ++ [mkConnection None false]) s)) fuel fuel)
    as (s' & Hrun & Ht & Hds & Hcb & Hh & Hcs);
    [apply new_handle_lookup|reflexivity|exact Hd|exact Hf|exact HL|exact Hlen|lia|].
  cbn [trace trafficControllerUrl callback heap conns set_conns set_heap] in Ht, Hcb, Hh, Hcs.
  rewrite Hc0 in Hcs. cbn [app] in Hcs.
  rewrite Hrun.
  set (s2 := emit [CloseErrors] (emit [CloseOutputs] s')).
  assert (Hl2 : heap s2 !! length (heap s) = Some (mkConnection None false)).
  { unfold s2. cbn [heap emit set_trace]. rewrite Hh. apply new_handle_lookup. }
  assert (Hc2 : conns s2 = [length (heap s)]) by exact Hcs.
  eexists. eexists. split; [reflexivity|]. fold s2. split.
  - rewrite Close_unfold, Hc2. cbn [length Nat.eqb].
    rewrite (Close_loop_cons s2 (length (heap s)) [] (mkConnection None false) Hl2).
    reflexivity.
  - cbn [conns heap trace emit set_trace set_heap Conn.close ws fst snd map].
    split; [exact Hc2|].
    split.
    + unfold is_closed.
      rewrite list_lookup_insert_eq by (now apply lookup_lt_Some with (mkConnection None false)).
      reflexivity.
    + unfold s2. cbn [trace emit set_trace]. rewrite Ht.
      unfold ws_calls. rewrite !omap_app.
      replace (omap _ (flat_map _ ds)) with (@nil ws_call).
      * simpl. now rewrite !app_nil_r.
      * clear. induction ds as [|d ds IH]; [reflexivity|].
        cbn [flat_map]. rewrite !omap_app, <- IH.
        rewrite (omap_dial_trace _ _ _ _ d) by reflexivity. reflexivity.
Qed.

End GivingUp.

(** ** The further properties at concrete inputs *)

Lemma Close_twice_witness :
  Close (set_conns [] (emit [Ws (WriteControlClose 1); Ws (WsClose 1)]
           (set_heap [mkConnection (Some toy_ws) true]
              (toy_registry [0]%nat [mkConnection (Some toy_ws) false]))))
  = Return (Some (errors_New "connection does not exist"))
      (set_conns [] (emit [Ws (WriteControlClose 1); Ws (WsClose 1)]
         (set_heap [mkConnection (Some toy_ws) true]
            (toy_registry [0]%nat [mkConnection (Some toy_ws) false])))).
Proof.
  apply (Close_twice (toy_registry [0]%nat [mkConnection (Some toy_ws) false])).
  reflexivity.
Defined.

Lemma Close_stuck_behind_unconnected_handle_witness :
  exists s',
    Close_times 3
      (toy_registry [0; 1]%nat [mkConnection None false; mkConnection (Some toy_ws) false])
      = Return (Some (errors_New "connection does not exist")) s'
    /\ conns s' = [0; 1]%nat
    /\ heap s' !! 1%nat = Some (mkConnection (Some toy_ws) false).
Proof.
  destruct (Close_stuck_behind_unconnected_handle 2
              (toy_registry [0; 1]%nat
                 [mkConnection None false; mkConnection (Some toy_ws) false])
              0 [1%nat] (mkConnection None false) eq_refl eq_refl eq_refl)
    as (s' & Hrun & Hc & _ & Hq).
  exists s'. split; [exact Hrun|]. split; [exact Hc|].
  rewrite Hq by lia. reflexivity.
Defined.

Lemma dial_error_names_the_traffic_controller_witness :
  exists s1,
    establishWebsocketConnection "/firehose/a" "token" (toy_state [dial_refused] []) =
      Return (None,
              Some (errors_New
                      ("Error dialing traffic controller server: " +:+ "connection refused"
                       +:+ "." +:+ newline +:+
                       "Please ask your Cloud Foundry Operator to check the platform configuration (traffic controller is "
                       +:+ "wss://doppler.example.com" +:+ ").")))
             s1
    /\ dials s1 = [].
Proof.
  destruct (dial_error_names_the_traffic_controller (toy_state [dial_refused] [])
              "/firehose/a" "token" dial_refused [] "connection refused"
              eq_refl eq_refl eq_refl) as (s1 & Hrun & _ & _ & Hd).
  exists s1. split; [exact Hrun|exact Hd].
Defined.

Lemma connect_callback_runs_on_success_only_witness :
  exists r s1,
    establishWebsocketConnection "/firehose/a" "token"
      (set_callback (Some (ResetAttempts (Some (External 9))))
         (toy_state [dial_ok toy_ws] [])) = Return r s1
    /\ callbacks_run (trace s1) = [9%nat].
Proof.
  destruct (connect_callback_runs_on_success_only
              (set_callback (Some (ResetAttempts (Some (External 9))))
                 (toy_state [dial_ok toy_ws] []))
              "/firehose/a" "token" (dial_ok toy_ws) [] eq_refl)
    as (r & s1 & Hrun & Ht).
  exists r, s1. split; [exact Hrun|exact Ht].
Defined.

Lemma listen_on_closed_handle_returns_nil_witness :
  listenForMessages toy_Unmarshal 1 0 (fun e => tell [SendEnvelope e])
    (set_heap [mkConnection (Some toy_ws) true] (toy_connected 0 [read_frame [Byte.x05]]))
  = Return None
      (set_reads []
         (emit (map Ws (pass_calls 0 1))
            (set_heap [mkConnection (Some toy_ws) true]
               (toy_connected 0 [read_frame [Byte.x05]])))).
Proof.
  apply (listen_on_closed_handle_returns_nil toy_Unmarshal 0
           (set_heap [mkConnection (Some toy_ws) true] (toy_connected 0 [read_frame [Byte.x05]]))
           0 (mkConnection (Some toy_ws) true) toy_ws (fun e => tell [SendEnvelope e])
           (read_frame [Byte.x05]) []); reflexivity.
Defined.

Lemma closed_stream_stops_silently_witness :
  exists s',
    retryAction 1
      (action toy_Unmarshal 1 0 "/firehose/a" "token" (fun e => tell [SendEnvelope e])) 5
      (set_heap [mkConnection None true] (toy_state [dial_ok toy_ws] []))
    = Return tt s'
    /\ trace s' = []
    /\ dials s' = [dial_ok toy_ws].
Proof.
  destruct (closed_stream_stops_silently toy_Unmarshal 0 1 0 "/firehose/a" "token"
              (fun e => tell [SendEnvelope e]) 5
              (set_heap [mkConnection None true] (toy_state [dial_ok toy_ws] []))
              (mkConnection None true) eq_refl eq_refl ltac:(lia))
    as (s' & Hrun & Ht & Hd & _).
  exists s'. split; [exact Hrun|]. split; [exact Ht|exact Hd].
Defined.

Lemma TailingLogs_forwards_log_messages_only_witness :
  exists s',
    TailingLogsWithoutReconnect toy_Unmarshal toy_GetEventType toy_GetLogMessage toy_LogMessage
      5 "app" "token"
      (toy_state [dial_ok toy_ws]
         (map read_frame [[Byte.x05]; []; [Byte.x04]] ++ [read_failure "EOF"]))
    = Return tt s'
    /\ sent_logs (trace s') = [Some "log line"]
    /\ sent_errors (trace s') = [Some (LibraryError "EOF")].
Proof.
  destruct (TailingLogs_forwards_log_messages_only toy_Unmarshal toy_GetEventType
              toy_GetLogMessage toy_LogMessage 5 "app" "token"
              (toy_state [dial_ok toy_ws]
                 (map read_frame [[Byte.x05]; []; [Byte.x04]] ++ [read_failure "EOF"]))
              (dial_ok toy_ws) [] [[Byte.x05]; []; [Byte.x04]] "EOF" []
              eq_refl eq_refl eq_refl ltac:(simpl; lia) ltac:(lia))
    as (s' & Hrun & Hl & _ & He & _).
  exists s'. split; [exact Hrun|]. split; [exact Hl|exact He].
Defined.

Lemma Stream_forwards_every_envelope_in_wire_order_witness :
  exists s',
    FirehoseWithoutReconnect toy_Unmarshal 5 "group-a" "token"
      (toy_state [dial_ok toy_ws]
         (map read_frame [[Byte.x05]; []; [Byte.x04]] ++ [read_failure "EOF"]))
    = Return tt s'
    /\ sent_envelopes (trace s') = [5; 4]%Z.
Proof.
  destruct (Stream_forwards_every_envelope_in_wire_order toy_Unmarshal 5 "group-a" "token"
              (toy_state [dial_ok toy_ws]
                 (map read_frame [[Byte.x05]; []; [Byte.x04]] ++ [read_failure "EOF"]))
              (dial_ok toy_ws) [] [[Byte.x05]; []; [Byte.x04]] "EOF" []
              (FirehoseWithoutReconnect toy_Unmarshal)
              ltac:(right; reflexivity) eq_refl eq_refl eq_refl ltac:(simpl; lia) ltac:(lia))
    as (s' & Hrun & He & _).
  exists s'. split; [exact Hrun|exact He].
Defined.

Lemma firehose_gives_up_after_limit_plus_one_witness :
  exists s',
    Firehose toy_Unmarshal 10 "group-a" "token"
      (toy_state [dial_refused; dial_refused; dial_unauthorized; dial_refused; dial_refused;
                  dial_refused] [])
    = Return tt s'
    /\ length (sent_errors (trace s')) = 6%nat
    /\ conns s' = [0%nat].
Proof.
  destruct (firehose_gives_up_after_limit_plus_one toy_Unmarshal 10 "group-a" "token" 5
              (toy_state [dial_refused; dial_refused; dial_unauthorized; dial_refused;
                          dial_refused; dial_refused] [])
              [dial_refused; dial_refused; dial_unauthorized; dial_refused; dial_refused;
               dial_refused] []
              ltac:(unfold maxUint, uintSize; lia) eq_refl ltac:(repeat constructor)
              eq_refl ltac:(simpl; lia))
    as (s' & _ & _ & He & _ & _ & Hc & _ & HF).
  exists s'. split; [exact (HF eq_refl)|]. split; [rewrite He; reflexivity|exact Hc].
Defined.

Lemma stream_registers_connected_handle_witness :
  exists s',
    stream toy_Unmarshal 1 "/apps/app/recentlogs" "token" (fun e => tell [SendEnvelope e])
      (toy_state [dial_ok toy_ws] []) = Blocked s'
    /\ conns s' = [0%nat]
    /\ heap s' = [mkConnection (Some toy_ws) false].
Proof.
  destruct (proj2 (stream_registers_connected_handle toy_Unmarshal 0 "/apps/app/recentlogs"
              "token" (fun e => tell [SendEnvelope e]) (toy_state [dial_ok toy_ws] [])
              (dial_ok toy_ws) [] eq_refl) toy_ws eq_refl eq_refl eq_refl)
    as (s' & Hrun & Hc & Hh & _).
  exists s'. split; [exact Hrun|]. split; [exact Hc|exact Hh].
Defined.

Lemma Close_after_giving_up_witness :
  exists s' s'',
    firehose toy_Unmarshal 5 "group-a" "token" 0 (toy_state [dial_refused] []) = Return tt s'
    /\ Close s' = Return (Some (errors_New "connection does not exist")) s''
    /\ conns s'' = [0%nat].
Proof.
  destruct (Close_after_giving_up toy_Unmarshal 5 "group-a" "token" 0
              (toy_state [dial_refused] []) [dial_refused] []
              eq_refl ltac:(unfold maxUint, uintSize; lia) eq_refl ltac:(repeat constructor)
              eq_refl ltac:(simpl; lia))
    as (s' & s'' & Hrun & Hclose & Hc & _).
  exists s', s''. split; [exact Hrun|]. split; [exact Hclose|exact Hc].
Defined.
